(** * Prometheus alert model of Robusta: parsing and alert-to-finding mapping

    A shallow embedding of [src/robusta/integrations/prometheus/models.py]:
    the two pydantic models that decode an Alertmanager webhook payload, the
    [SEVERITY_MAP] table and the methods of [PrometheusKubernetesAlert]
    ([get_title], [get_description], [__get_alert_subject],
    [create_default_finding]); and of [playbooks/bash_enrichments.py], the
    two actions that run a command in a pod or on a node and attach its
    output.

    Python values are modelled by [PyVal], Python dictionaries with string
    keys by [gmap string _], exceptions by the [result] type, and the regular
    expression of [get_description] by a small backtracking matcher that
    follows the search order of Python's [re] module. A resource reference
    is modelled with its metadata set ([K8s.Resource]) and, for what the
    methods and actions do when it is not, as hikaru declares it, with
    optional metadata ([Hikaru.Object]). The actions of the enrichers are
    traces of effects. *)

From Stdlib Require Import ZArith String Ascii List Lia.
From Stdlib Require Import Floats.SpecFloat.
From stdpp Require Import gmap strings list fin_maps.

Set Warnings "-register-all".

(** ** Regular expressions, as far as [get_description] needs them

    A text is the list of its characters. For a text outside ASCII read the
    characters as the bytes of its UTF-8 encoding: the pattern is made of
    ASCII characters, which never occur inside a multi-byte sequence, so the
    matcher finds the same matches on bytes as on code points. *)

Module Re.

(** The atoms occurring in the pattern of [get_description]: a literal
    character, the greedy [.*], and the anchor [$]. *)
Inductive atom : Type :=
  | Lit (c : ascii)
  | DotStar
  | EndAnchor.

(** ["\n"], the one character [.] does not match (no DOTALL flag). *)
Definition newline : ascii := "010"%char.

Definition is_newline (c : ascii) : bool := Ascii.eqb c newline.

(** [$] without the MULTILINE flag: at the end of the string, or just before
    a newline that is the last character of the string. The argument is the
    part of the subject that is still to be read. *)
Definition at_end (s : list ascii) : bool :=
  match s with
  | [] => true
  | [c] => is_newline c
  | _ => false
  end.

(** [match_here p s] tries to match the pattern [p] at the start of [s] and
    returns what is left of [s] after the match. Alternatives are explored in
    the order of a backtracking matcher: [.*] first takes as many characters
    as it can and gives them back one at a time. *)
Fixpoint match_here (p : list atom) : list ascii -> option (list ascii) :=
  match p with
  | [] => fun s => Some s
  | Lit c :: p' => fun s =>
      match s with
      | c' :: s' => if Ascii.eqb c c' then match_here p' s' else None
      | [] => None
      end
  | EndAnchor :: p' => fun s => if at_end s then match_here p' s else None
  | DotStar :: p' =>
      fix star (s : list ascii) : option (list ascii) :=
        match s with
        | c :: s' =>
            if is_newline c then match_here p' s
            else match star s' with
                 | Some r => Some r
                 | None => match_here p' s
                 end
        | [] => match_here p' s
        end
  end.

(** [re.sub(p, "", s)]: scan [s] from the left; a non-empty match found at the
    current position is dropped ([skip] counts the characters of it that are
    still to be dropped) and the scan resumes behind it; otherwise the current
    character is copied. An empty match is replaced by the empty string, so it
    leaves the character in place as well. *)
Fixpoint sub_from (p : list atom) (skip : nat) (s : list ascii) : list ascii :=
  match s with
  | [] => []
  | c :: s' =>
      match skip with
      | S k => sub_from p k s'
      | O =>
          match match_here p s with
          | Some r =>
              match length s - length r with
              | S k => sub_from p k s'
              | O => c :: sub_from p 0 s'
              end
          | None => c :: sub_from p 0 s'
          end
      end
  end.

Definition sub_empty (p : list atom) (s : string) : string :=
  string_of_list_ascii (sub_from p 0 (list_ascii_of_string s)).

(** The literal characters of a string, as atoms. *)
Definition lits (s : string) : list atom := map Lit (list_ascii_of_string s).

End Re.

(** The pattern [r"LABELS = map\[.*\]$"] of [get_description]. *)
Definition LABELS_PREFIX : string := "LABELS = map[".

Definition LABELS_PATTERN : list Re.atom :=
  Re.lits LABELS_PREFIX ++ [Re.DotStar; Re.Lit "]"%char; Re.EndAnchor].

(** [re.sub(r"LABELS = map\[.*\]$", "", description)] *)
Definition strip_labels (description : string) : string :=
  Re.sub_empty LABELS_PATTERN description.

(** ** Python values and exceptions *)

(** The values a decoded JSON document is made of. pydantic leaves the
    entries of a [Dict[Any, Any]] field as they are, so these are the values
    labels and annotations can hold. Dictionary keys are strings, as in every
    decoded JSON object. *)
Inductive PyVal : Type :=
  | VNone
  | VBool (b : bool)
  | VInt (n : Z)
  | VFloat (f : spec_float)
  | VStr (s : string)
  | VList (l : list PyVal)
  | VDict (d : gmap string PyVal).

(** [bool(v)], as an [if] statement evaluates it. *)
Definition truthy (v : PyVal) : bool :=
  match v with
  | VNone => false
  | VBool b => b
  | VInt n => negb (n =? 0)%Z
  | VFloat (S754_zero _) => false
  | VFloat _ => true
  | VStr s => negb (String.eqb s "")
  | VList l => negb (Nat.eqb (length l) 0)
  | VDict d => negb (Nat.eqb (size d) 0)
  end.

(** Whether [hash(v)] succeeds: lists and dictionaries are unhashable. *)
Definition hashable (v : PyVal) : bool :=
  match v with
  | VList _ | VDict _ => false
  | _ => true
  end.

Inductive exn : Type :=
  | TypeError
  | KeyError
  | AttributeError
  | ValidationError.

Inductive result (A : Type) : Type :=
  | Ok (a : A)
  | Raise (e : exn).

Arguments Ok {A} a.
Arguments Raise {A} e.

(** Sequencing: the first exception raised ends the evaluation. *)
#[global] Instance result_bind : MBind result := fun A B k r =>
  match r with
  | Ok a => k a
  | Raise e => Raise e
  end.

(** [d.get(key)]: [None] when the key is absent. *)
Definition dict_get (d : gmap string PyVal) (key : string) : PyVal :=
  default VNone (d !! key).

(** [d.get(key, dflt)] *)
Definition dict_get_or (d : gmap string PyVal) (key : string) (dflt : PyVal) : PyVal :=
  default dflt (d !! key).

(** [d[key]] *)
Definition subscript (d : gmap string PyVal) (key : string) : result PyVal :=
  match d !! key with
  | Some v => Ok v
  | None => Raise KeyError
  end.

(** [str(v)], which is what the f-string [f'{v}'] evaluates to. How numbers,
    lists and dictionaries are printed is left open; a string is printed as
    itself. *)
Class Builtins : Type := {
  py_str : PyVal -> string;
  py_str_str : forall s, py_str (VStr s) = s
}.

(** [re.sub(r"LABELS = map\[.*\]$", "", v)]: the subject has to be a string. *)
Definition re_sub_labels (v : PyVal) : result string :=
  match v with
  | VStr s => Ok (strip_labels s)
  | _ => Raise TypeError
  end.

(** ** The reporting types

    [Finding], [FindingSubject] and the enumerations are imported from
    [robusta.core.reporting]; their constructors store the arguments. *)

(** Modelled from the spec: the members of [FindingSeverity], which the spec
    lists as the ordered enumeration INFO, LOW, MEDIUM, HIGH. *)
Inductive FindingSeverity : Type := INFO | LOW | MEDIUM | HIGH.

(** Modelled from the spec: the members of [FindingSubjectType], the spec's
    resource kinds NONE, POD, JOB, DEPLOYMENT, DAEMONSET and NODE. *)
Inductive FindingSubjectType : Type :=
  | TYPE_NONE
  | TYPE_POD
  | TYPE_JOB
  | TYPE_DEPLOYMENT
  | TYPE_DAEMONSET
  | TYPE_NODE.

(** Modelled from the spec: [FindingSource], of which this file uses the one
    member that tags findings coming from Prometheus. *)
Inductive FindingSource : Type := PROMETHEUS.

Module FindingSubject.
(** Modelled from the spec: [FindingSubject(name, subject_type, namespace)],
    the spec's ResourceSubject. *)
Record t : Type := Build {
  name : option string;
  subject_type : FindingSubjectType;
  namespace : option string
}.
End FindingSubject.

Module Finding.
(** Modelled from the spec: [Finding], the spec's NormalizedFinding, built
    from keyword arguments. The title is whatever [get_title] returns. *)
Record t : Type := Build {
  title : PyVal;
  description : string;
  source : FindingSource;
  aggregation_key : option string;
  severity : FindingSeverity;
  subject : FindingSubject.t
}.
End Finding.

(** ** Kubernetes resources *)

Module K8s.
(** Modelled from the spec: the metadata of a resolved resource reference,
    with its name and its namespace (absent on cluster-scoped objects). *)
Record ObjectMeta : Type := {
  name : option string;
  namespace : option string
}.

(** Modelled from the spec: a resource object ([RobustaPod], [RobustaJob],
    [RobustaDeployment], [DaemonSet], [Node]) as far as the alert model reads
    it. Such an object is always true in an [if]. *)
Record Resource : Type := {
  metadata : ObjectMeta
}.
End K8s.

(** ** The parsed payload *)

(** A [datetime.datetime] value: the instant as microseconds since the epoch
    and the UTC offset in seconds of an aware value. *)
Record datetime : Type := {
  epoch_microseconds : Z;
  utcoffset : option Z
}.

Module PrometheusAlert.
Record t : Type := Build {
  endsAt : datetime;
  generatorURL : string;
  startsAt : datetime;
  fingerprint : option string;
  status : string;
  labels : gmap string PyVal;
  annotations : gmap string PyVal
}.
End PrometheusAlert.

Module AlertManagerEvent.
Record t : Type := Build {
  alerts : list PrometheusAlert.t;
  externalURL : string;
  groupKey : string;
  version : string;
  commonAnnotations : option (gmap string PyVal);
  commonLabels : option (gmap string PyVal);
  groupLabels : option (gmap string PyVal);
  receiver : string;
  status : string
}.
End AlertManagerEvent.

(** ** Decoding the payload with pydantic *)

(** The validators pydantic runs for the field types [datetime], [str] and
    [Dict[Any, Any]]. They belong to the pydantic library; which values each
    of them coerces differs between its versions, so they are taken as given,
    with what every version guarantees: a string is a valid [str], a
    dictionary is a valid [Dict[Any, Any]] and is kept as it is, and an
    integer is no dictionary. [None] stands for a validation error. *)
Class Validators : Type := {
  datetime_validator : PyVal -> option datetime;
  str_validator : PyVal -> option string;
  dict_validator : PyVal -> option (gmap string PyVal);
  str_validator_str : forall s, str_validator (VStr s) = Some s;
  dict_validator_dict : forall d, dict_validator (VDict d) = Some d;
  dict_validator_int : forall n, dict_validator (VInt n) = None
}.

Section Pydantic.

Context `{Validators}.

(** A field whose type is not [Optional]: [None] is not an allowed value. *)
Definition not_none {A : Type} (validator : PyVal -> option A) (v : PyVal) : option A :=
  match v with
  | VNone => None
  | _ => validator v
  end.

(** [name: T], a field without default: it has to be there. *)
Definition required {A : Type} (validator : PyVal -> option A)
    (raw : gmap string PyVal) (name : string) : option A :=
  match raw !! name with
  | Some v => not_none validator v
  | None => None
  end.

(** [name: Optional[T] = dflt]: the default when the key is absent, [None]
    for an explicit null, the validated value otherwise. *)
Definition optional {A : Type} (validator : PyVal -> option A)
    (raw : gmap string PyVal) (name : string) (dflt : option A) : option (option A) :=
  match raw !! name with
  | Some VNone => Some None
  | Some v => Some <$> validator v
  | None => Some dflt
  end.

(** [name: T = dflt] *)
Definition with_default {A : Type} (validator : PyVal -> option A)
    (raw : gmap string PyVal) (name : string) (dflt : A) : option A :=
  match raw !! name with
  | Some v => not_none validator v
  | None => Some dflt
  end.

(** The fields of [PrometheusAlert], in the order of the class body. *)
Definition PrometheusAlert_fields (raw : gmap string PyVal) : option PrometheusAlert.t :=
  endsAt ← required datetime_validator raw "endsAt";
  generatorURL ← required str_validator raw "generatorURL";
  startsAt ← required datetime_validator raw "startsAt";
  fingerprint ← optional str_validator raw "fingerprint" (Some "");
  status ← required str_validator raw "status";
  labels ← required dict_validator raw "labels";
  annotations ← required dict_validator raw "annotations";
  Some (PrometheusAlert.Build endsAt generatorURL startsAt fingerprint status
          labels annotations).

(** An element of [alerts]: it is made a dictionary and its fields are
    validated. *)
Definition PrometheusAlert_validate (v : PyVal) : option PrometheusAlert.t :=
  raw ← dict_validator v; PrometheusAlert_fields raw.

(** [List[PrometheusAlert]]: a JSON array, each element validated. *)
Definition alerts_validator (v : PyVal) : option (list PrometheusAlert.t) :=
  match v with
  | VList l => mapM PrometheusAlert_validate l
  | _ => None
  end.

(** The fields of [AlertManagerEvent], in the order of the class body. *)
Definition AlertManagerEvent_fields (raw : gmap string PyVal) : option AlertManagerEvent.t :=
  alerts ← with_default alerts_validator raw "alerts" [];
  externalURL ← required str_validator raw "externalURL";
  groupKey ← required str_validator raw "groupKey";
  version ← required str_validator raw "version";
  commonAnnotations ← optional dict_validator raw "commonAnnotations" None;
  commonLabels ← optional dict_validator raw "commonLabels" None;
  groupLabels ← optional dict_validator raw "groupLabels" None;
  receiver ← required str_validator raw "receiver";
  status ← required str_validator raw "status";
  Some (AlertManagerEvent.Build alerts externalURL groupKey version
          commonAnnotations commonLabels groupLabels receiver status).

(** [AlertManagerEvent] applied to the entries of the decoded payload as
    keyword arguments: the parsed payload, or pydantic's [ValidationError]
    when a field is refused. Keys that are no field of the model are
    ignored. *)
Definition parse_AlertManagerEvent (raw : gmap string PyVal) : result AlertManagerEvent.t :=
  match AlertManagerEvent_fields raw with
  | Some e => Ok e
  | None => Raise ValidationError
  end.

(** [PrometheusAlert] applied to the entries of a decoded alert. *)
Definition parse_PrometheusAlert (raw : gmap string PyVal) : result PrometheusAlert.t :=
  match PrometheusAlert_fields raw with
  | Some a => Ok a
  | None => Raise ValidationError
  end.

End Pydantic.

(** ** The alert event and its finding *)

Definition SEVERITY_MAP : gmap string FindingSeverity :=
  {[ "critical" := HIGH; "error" := MEDIUM; "warning" := LOW; "info" := INFO ]}.

(** [SEVERITY_MAP.get(key, dflt)]: the key is hashed first, which fails on a
    list or a dictionary; a key that is no string equals none of the keys. *)
Definition severity_get (key : PyVal) (dflt : FindingSeverity) : result FindingSeverity :=
  if hashable key then
    match key with
    | VStr s => Ok (default dflt (SEVERITY_MAP !! s))
    | _ => Ok dflt
    end
  else Raise TypeError.

Module PrometheusKubernetesAlert.
(** The dataclass; the fields inherited from [ExecutionBaseEvent] are not
    read by the methods below. *)
Record t : Type := Build {
  alert : option PrometheusAlert.t;
  alert_name : option string;
  alert_severity : option string;
  node : option K8s.Resource;
  pod : option K8s.Resource;
  deployment : option K8s.Resource;
  job : option K8s.Resource;
  daemonset : option K8s.Resource
}.
End PrometheusKubernetesAlert.

Import PrometheusKubernetesAlert.

(** [self.alert.x]: reading an attribute of [None] raises. *)
Definition the_alert (self : PrometheusKubernetesAlert.t) : result PrometheusAlert.t :=
  match alert self with
  | Some a => Ok a
  | None => Raise AttributeError
  end.

Section Methods.

Context `{Builtins}.

Definition get_title (self : PrometheusKubernetesAlert.t) : result PyVal :=
  a ← the_alert self;
  let annotations := PrometheusAlert.annotations a in
  if truthy (dict_get annotations "summary") then
    summary ← subscript annotations "summary";
    Ok (VStr (py_str summary))
  else
    a' ← the_alert self;
    Ok (dict_get_or (PrometheusAlert.labels a') "alertname" (VStr "")).

Definition get_description (self : PrometheusKubernetesAlert.t) : result string :=
  a ← the_alert self;
  let annotations := PrometheusAlert.annotations a in
  let clean_description := ""%string in
  if truthy (dict_get annotations "description") then
    description ← subscript annotations "description";
    re_sub_labels description
  else Ok clean_description.

Definition __get_alert_subject (self : PrometheusKubernetesAlert.t) : FindingSubject.t :=
  match pod self with
  | Some pod =>
      FindingSubject.Build (K8s.name (K8s.metadata pod)) TYPE_POD
        (K8s.namespace (K8s.metadata pod))
  | None =>
  match job self with
  | Some job =>
      FindingSubject.Build (K8s.name (K8s.metadata job)) TYPE_JOB
        (K8s.namespace (K8s.metadata job))
  | None =>
  match deployment self with
  | Some deployment =>
      FindingSubject.Build (K8s.name (K8s.metadata deployment)) TYPE_DEPLOYMENT
        (K8s.namespace (K8s.metadata deployment))
  | None =>
  match daemonset self with
  | Some daemonset =>
      FindingSubject.Build (K8s.name (K8s.metadata daemonset)) TYPE_DAEMONSET
        (K8s.namespace (K8s.metadata daemonset))
  | None =>
  match node self with
  | Some node => FindingSubject.Build (K8s.name (K8s.metadata node)) TYPE_NODE None
  | None => FindingSubject.Build None TYPE_NONE None
  end end end end end.

(** The severity argument:
    [SEVERITY_MAP.get(self.alert.labels.get("severity"), FindingSeverity.INFO)] *)
Definition get_severity (self : PrometheusKubernetesAlert.t) : result FindingSeverity :=
  a ← the_alert self;
  severity_get (dict_get (PrometheusAlert.labels a) "severity") INFO.

(** The arguments of [Finding(...)] are evaluated in the order they are
    written. *)
Definition create_default_finding (self : PrometheusKubernetesAlert.t) : result Finding.t :=
  let alert_subject := __get_alert_subject self in
  title ← get_title self;
  description ← get_description self;
  severity ← get_severity self;
  Ok (Finding.Build title description PROMETHEUS (alert_name self) severity
        alert_subject).

End Methods.


(** ** References without metadata

    hikaru declares the metadata of every resource class
    [Optional[ObjectMeta] = None]. A [K8s.Resource] above is a reference whose
    metadata is set. The event below takes its references as hikaru gives
    them, so that reading [self.pod.metadata.name] can fail; the methods that
    read the alert only are the ones above. *)

Module Hikaru.

(** A resource object ([RobustaPod], [RobustaJob], [RobustaDeployment],
    [DaemonSet], [Node]) as far as it is read: its metadata, which may be
    [None]. The object itself is true in an [if]. *)
Record Object : Type := {
  metadata : option K8s.ObjectMeta
}.

(** The dataclass [PrometheusKubernetesAlert] with such references. *)
Record Event : Type := {
  alert : option PrometheusAlert.t;
  alert_name : option string;
  alert_severity : option string;
  node : option Object;
  pod : option Object;
  deployment : option Object;
  job : option Object;
  daemonset : option Object
}.

(** [ref.metadata.x]: reading an attribute of [None] raises. *)
Definition the_metadata (ref : Object) : result K8s.ObjectMeta :=
  match metadata ref with
  | Some m => Ok m
  | None => Raise AttributeError
  end.

Definition __get_alert_subject (self : Event) : result FindingSubject.t :=
  match pod self with
  | Some pod =>
      m ← the_metadata pod;
      let name := K8s.name m in
      m' ← the_metadata pod;
      let namespace := K8s.namespace m' in
      Ok (FindingSubject.Build name TYPE_POD namespace)
  | None =>
  match job self with
  | Some job =>
      m ← the_metadata job;
      let name := K8s.name m in
      m' ← the_metadata job;
      let namespace := K8s.namespace m' in
      Ok (FindingSubject.Build name TYPE_JOB namespace)
  | None =>
  match deployment self with
  | Some deployment =>
      m ← the_metadata deployment;
      let name := K8s.name m in
      m' ← the_metadata deployment;
      let namespace := K8s.namespace m' in
      Ok (FindingSubject.Build name TYPE_DEPLOYMENT namespace)
  | None =>
  match daemonset self with
  | Some daemonset =>
      m ← the_metadata daemonset;
      let name := K8s.name m in
      m' ← the_metadata daemonset;
      let namespace := K8s.namespace m' in
      Ok (FindingSubject.Build name TYPE_DAEMONSET namespace)
  | None =>
  match node self with
  | Some node =>
      m ← the_metadata node;
      let name := K8s.name m in
      Ok (FindingSubject.Build name TYPE_NODE None)
  | None => Ok (FindingSubject.Build None TYPE_NONE None)
  end end end end end.

(** The event as [get_title], [get_description] and the severity read it:
    they read [self.alert] and nothing of the references. *)
Definition alert_part (self : Event) : PrometheusKubernetesAlert.t :=
  PrometheusKubernetesAlert.Build (alert self) (alert_name self)
    (alert_severity self) None None None None None.

Section Methods.

Context `{Builtins}.

(** The subject is resolved first, then the arguments of [Finding(...)] are
    evaluated in the order they are written. *)
Definition create_default_finding (self : Event) : result Finding.t :=
  alert_subject ← __get_alert_subject self;
  title ← get_title (alert_part self);
  description ← get_description (alert_part self);
  severity ← get_severity (alert_part self);
  Ok (Finding.Build title description PROMETHEUS (alert_name self) severity
        alert_subject).

End Methods.

(** A reference with its metadata set, and an event all of whose references
    are such. *)
Definition with_metadata (r : K8s.Resource) : Object :=
  {| metadata := Some (K8s.metadata r) |}.

Definition of_resolved (self : PrometheusKubernetesAlert.t) : Event :=
  {| alert := PrometheusKubernetesAlert.alert self;
     alert_name := PrometheusKubernetesAlert.alert_name self;
     alert_severity := PrometheusKubernetesAlert.alert_severity self;
     node := with_metadata <$> PrometheusKubernetesAlert.node self;
     pod := with_metadata <$> PrometheusKubernetesAlert.pod self;
     deployment := with_metadata <$> PrometheusKubernetesAlert.deployment self;
     job := with_metadata <$> PrometheusKubernetesAlert.job self;
     daemonset := with_metadata <$> PrometheusKubernetesAlert.daemonset self |}.

(** The reference the subject is taken from: the first one present in the
    order pod, job, deployment, daemonset, node. *)
Definition first_reference (self : Event) : option Object :=
  head (omap id [pod self; job self; deployment self; daemonset self; node self]).

(** The subject can be read: the first present reference, if there is one,
    has its metadata. *)
Definition subject_ok (self : Event) : Prop :=
  forall r, first_reference self = Some r -> is_Some (metadata r).

End Hikaru.

(** ** The bash enrichers ([playbooks/bash_enrichments.py])

    The two actions talk to the cluster, the log and the event. What they do
    is recorded as a trace of effects; what the cluster answers is taken from
    an interface. *)

Module Bash.

(** The report blocks of robusta, [BaseBlock], and the call
    [MarkdownBlock(text)] that builds one from a text. The reporting classes
    are not among the sources read here, so both are taken as given: nothing
    is assumed about what a block makes of its text. *)
Class Reporting : Type := {
  BaseBlock : Type;
  MarkdownBlock : string -> BaseBlock
}.

(** [BashParams], the parameters of both actions, as far as they are read:
    the command, a string. *)
Record BashParams : Type := {
  bash_command : string
}.

(** [PodEvent] and [NodeEvent], as far as they are read: the object the event
    is about, if there is one, which [get_pod] and [get_node] return. *)
Record PodEvent : Type := {
  get_pod : option Hikaru.Object
}.

Record NodeEvent : Type := {
  get_node : option Hikaru.Object
}.

(** What the surroundings answer: the output of a command run in a pod
    ([pod.exec]) and in a debugger pod on a node
    ([RobustaPod.exec_in_debugger_pod]), or the exception the call raises;
    and how an event is printed in an f-string. *)
Class Cluster : Type := {
  pod_exec : Hikaru.Object -> string -> result string;
  exec_in_debugger_pod : string -> option string -> string -> result string;
  str_PodEvent : PodEvent -> string;
  str_NodeEvent : NodeEvent -> string
}.

Section Traces.

Context `{Reporting}.

(** The effects of an action, in the order they happen. *)
Inductive effect : Type :=
  | LogError (message : string)
  | PodExec (pod : Hikaru.Object) (command : string)
  | DebuggerExec (pod_name : string) (node_name : option string) (command : string)
  | AddEnrichment (blocks : list BaseBlock).

(** An action: the effects so far, and the value or the exception. *)
Definition Action (A : Type) : Type := list effect * result A.

#[global] Instance Action_ret : MRet Action := fun A a => ([], Ok a).

#[global] Instance Action_bind : MBind Action := fun A B k m =>
  match m with
  | (t, Ok a) => let (t', r) := k a in (t ++ t', r)
  | (t, Raise e) => (t, Raise e)
  end.

(** A value, or an exception, that costs no effect. *)
Definition lift {A : Type} (r : result A) : Action A := ([], r).

(** [logging.error(message)] *)
Definition logging_error (message : string) : Action unit :=
  ([LogError message], Ok tt).

(** [event.add_enrichment(blocks)] *)
Definition add_enrichment (blocks : list BaseBlock) : Action unit :=
  ([AddEnrichment blocks], Ok tt).

Section Actions.

Context `{Cluster}.

(** [pod.exec(command)] *)
Definition exec (pod : Hikaru.Object) (command : string) : Action string :=
  ([PodExec pod command], pod_exec pod command).

(** [RobustaPod.exec_in_debugger_pod(pod_name, node_name, command)]; the
    arguments are evaluated before the call, [node.metadata.name] among
    them. *)
Definition debugger_exec (pod_name : string) (node_name : option string)
    (command : string) : Action string :=
  ([DebuggerExec pod_name node_name command],
   exec_in_debugger_pod pod_name node_name command).

Definition pod_bash_enricher (event : PodEvent) (params : BashParams) : Action unit :=
  let pod := get_pod event in
  match pod with
  | None =>
      logging_error
        ("cannot run PodBashEnricher on event with no pod: " +:+ str_PodEvent event)
  | Some pod =>
      let block_list : list BaseBlock := [] in
      exec_result ← exec pod (bash_command params);
      let block_list := block_list ++
        [MarkdownBlock ("Command results for *" +:+ bash_command params +:+ ":*")] in
      let block_list := block_list ++ [MarkdownBlock exec_result] in
      add_enrichment block_list
  end.

Definition node_bash_enricher (event : NodeEvent) (params : BashParams) : Action unit :=
  let node := get_node event in
  match node with
  | None =>
      logging_error
        ("cannot run NodeBashEnricher on event with no node: " +:+ str_NodeEvent event)
  | Some node =>
      let block_list : list BaseBlock := [] in
      metadata ← lift (Hikaru.the_metadata node);
      exec_result ← debugger_exec "node-bash-pod" (K8s.name metadata)
                      (bash_command params);
      let block_list := block_list ++
        [MarkdownBlock ("Command results for *" +:+ bash_command params +:+ ":*")] in
      let block_list := block_list ++ [MarkdownBlock exec_result] in
      add_enrichment block_list
  end.

End Actions.

(** The commands a trace runs, the enrichments it attaches and the errors it
    logs. *)
Definition commands_run (t : list effect) : list string :=
  omap (fun x => match x with
                 | PodExec _ c | DebuggerExec _ _ c => Some c
                 | _ => None
                 end) t.

Definition enrichments (t : list effect) : list (list BaseBlock) :=
  omap (fun x => match x with AddEnrichment b => Some b | _ => None end) t.

Definition errors_logged (t : list effect) : list string :=
  omap (fun x => match x with LogError m => Some m | _ => None end) t.

End Traces.

End Bash.
(** ** Notions the statements use *)

(** *** Texts and tags *)

(** A stretch of text within one line: no newline in it. *)
Definition one_line (w : list ascii) : Prop :=
  Forall (fun c => Re.is_newline c = false) w.

Definition prefix_chars : list ascii := list_ascii_of_string LABELS_PREFIX.

Definition close_bracket : ascii := "]"%char.

(** [tagged q r]: [q] reads [LABELS = map[], then text within one line, then
    a closing bracket, and then only [r], which is empty or one last newline.
    This is what the pattern says, read off the regular expression. *)
Definition tagged (q r : list ascii) : Prop :=
  exists w, q = prefix_chars ++ w ++ close_bracket :: r
            /\ one_line w /\ Re.at_end r = true.

(** No tag starts anywhere in [s]. *)
Definition untagged (s : list ascii) : Prop :=
  forall p q r, s = p ++ q -> ~ tagged q r.

(** [q] is where the leftmost tag of [s] starts, [p] is the text before it. *)
Definition first_tag (s p q r : list ascii) : Prop :=
  s = p ++ q /\ tagged q r /\
  forall p1 q1 r1, s = p1 ++ q1 -> tagged q1 r1 -> length p <= length p1.

(** The same notions on strings. *)
Definition NL : string := String Re.newline "".

Definition SingleLine (w : string) : Prop := one_line (list_ascii_of_string w).

(** A text of the form [LABELS = map[...]], the dots within one line. *)
Definition LabelsTag (m : string) : Prop :=
  exists w, m = LABELS_PREFIX +:+ w +:+ "]" /\ SingleLine w.

(** Nothing, or the one newline that may end a description. *)
Definition LastNewline (t : string) : Prop := t = "" \/ t = NL.

(** [x] occurs in [s]. *)
Definition occurs (x s : string) : Prop := exists a b, s = a +:+ x +:+ b.

(** *** The severity table, by cases *)

(** The spec's [severityOf], on a label that is a string or absent. *)
Definition severityOf (label : option string) : FindingSeverity :=
  match label with
  | Some s =>
      if String.eqb s "critical" then HIGH
      else if String.eqb s "error" then MEDIUM
      else if String.eqb s "warning" then LOW
      else INFO
  | None => INFO
  end.

(** *** The subject, by priority *)



(** *** Which payloads are refused *)

Section PayloadSpec.

Context `{Validators}.

(** The field is absent from the payload. *)
Definition missing (raw : gmap string PyVal) (name : string) : Prop :=
  raw !! name = None.

(** The field is there, with null or with a value that the validator of the
    field's type refuses. The validator may coerce a value of another type
    (pydantic turns the number 4 into the string "4"), and such a value is
    not refused. *)
Definition refused {A : Type} (validator : PyVal -> option A)
    (raw : gmap string PyVal) (name : string) : Prop :=
  exists v, raw !! name = Some v /\ (v = VNone \/ validator v = None).

(** An [Optional] field is there with a value, not null, that the validator
    of the field's type refuses. *)
Definition refused_optional {A : Type} (validator : PyVal -> option A)
    (raw : gmap string PyVal) (name : string) : Prop :=
  exists v, raw !! name = Some v /\ v <> VNone /\ validator v = None.

Definition missing_or_refused {A : Type} (validator : PyVal -> option A)
    (raw : gmap string PyVal) (name : string) : Prop :=
  missing raw name \/ refused validator raw name.

(** A required field of one alert is missing, null or refused by its
    validator. *)
Definition alert_required_bad (d : gmap string PyVal) : Prop :=
  missing_or_refused datetime_validator d "endsAt"
  \/ missing_or_refused str_validator d "generatorURL"
  \/ missing_or_refused datetime_validator d "startsAt"
  \/ missing_or_refused str_validator d "status"
  \/ missing_or_refused dict_validator d "labels"
  \/ missing_or_refused dict_validator d "annotations".

(** A required field of the payload is missing, null or refused by its
    validator. *)
Definition top_required_bad (raw : gmap string PyVal) : Prop :=
  missing_or_refused str_validator raw "externalURL"
  \/ missing_or_refused str_validator raw "groupKey"
  \/ missing_or_refused str_validator raw "version"
  \/ missing_or_refused str_validator raw "receiver"
  \/ missing_or_refused str_validator raw "status".

(** The condition of the spec, "a required field is missing or mistyped",
    read with pydantic's notion of a wrong type: a required field of the
    payload or of one of its alerts is missing, null or refused by its
    validator. An element of [alerts] that is no dictionary at all counts as
    having every field missing. *)
Definition required_bad (raw : gmap string PyVal) : Prop :=
  top_required_bad raw
  \/ exists l v, raw !! "alerts" = Some (VList l) /\ v ∈ l
       /\ forall d, dict_validator v = Some d -> alert_required_bad d.

(** An element of [alerts] that pydantic refuses: no dictionary, or a
    required field is missing or refused, or [fingerprint] is refused. *)
Definition alert_bad (v : PyVal) : Prop :=
  forall d, dict_validator v = Some d ->
    alert_required_bad d \/ refused_optional str_validator d "fingerprint".

(** [alerts] is there and is null, no list, or a list with a refused
    element. *)
Definition alerts_bad (raw : gmap string PyVal) : Prop :=
  exists v, raw !! "alerts" = Some v /\
    match v with
    | VList l => exists x, x ∈ l /\ alert_bad x
    | _ => True
    end.

(** Everything pydantic refuses a payload for. *)
Definition payload_bad (raw : gmap string PyVal) : Prop :=
  top_required_bad raw
  \/ alerts_bad raw
  \/ refused_optional dict_validator raw "commonAnnotations"
  \/ refused_optional dict_validator raw "commonLabels"
  \/ refused_optional dict_validator raw "groupLabels".

End PayloadSpec.

(** *** Which alerts the methods accept *)

(** The "description" annotation is absent, false in an [if], or a string. *)
Definition description_ok (a : PrometheusAlert.t) : Prop :=
  truthy (dict_get (PrometheusAlert.annotations a) "description") = false
  \/ exists s, dict_get (PrometheusAlert.annotations a) "description" = VStr s.

(** The "severity" label is absent or can be hashed. *)
Definition severity_ok (a : PrometheusAlert.t) : Prop :=
  hashable (dict_get (PrometheusAlert.labels a) "severity") = true.

(** The entry is absent or a string. *)
Definition str_or_absent (entry : option PyVal) : Prop :=
  entry = None \/ exists s, entry = Some (VStr s).

(** A statement that holds whatever [str] prints numbers and containers as. *)
Definition forall_builtins (P : Builtins -> Prop) : Prop := forall B : Builtins, P B.

(** A statement that holds whichever values the validators of pydantic
    coerce. *)
Definition forall_validators (P : Validators -> Prop) : Prop :=
  forall V : Validators, P V.

(** Every value of the dictionary is a string, as in the labels and
    annotations Alertmanager sends. *)
Definition all_strings (d : gmap string PyVal) : Prop :=
  forall k v, d !! k = Some v -> exists s, v = VStr s.

(** The entry as a string, if it is one. *)
Definition as_str (entry : option PyVal) : option string :=
  match entry with
  | Some (VStr s) => Some s
  | _ => None
  end.

(** The names of the fields of the two models. *)
Definition AlertManagerEvent_field_names : list string :=
  ["alerts"; "externalURL"; "groupKey"; "version"; "commonAnnotations";
   "commonLabels"; "groupLabels"; "receiver"; "status"].

Definition PrometheusAlert_field_names : list string :=
  ["endsAt"; "generatorURL"; "startsAt"; "fingerprint"; "status"; "labels";
   "annotations"].

(** *** Sample values *)

Definition epoch : datetime := {| epoch_microseconds := 0; utcoffset := Some 0%Z |}.

(** A firing alert with the given labels and annotations. *)
Definition sample_alert (labels annotations : gmap string PyVal) : PrometheusAlert.t :=
  PrometheusAlert.Build epoch "http://prometheus/graph" epoch (Some "") "firing"
    labels annotations.

(** An event for an alert named [HighCPU], with the given pod and node. *)
Definition sample_event (a : PrometheusAlert.t) (pod node : option K8s.Resource)
  : PrometheusKubernetesAlert.t :=
  PrometheusKubernetesAlert.Build (Some a) (Some "HighCPU") None node pod None None None.

Definition resource (name : string) (namespace : option string) : K8s.Resource :=
  {| K8s.metadata := {| K8s.name := Some name; K8s.namespace := namespace |} |}.

(** Two tagged lines: ["LABELS = map[a]\nLABELS = map[b]"]. *)
Definition two_tagged_lines : string :=
  "LABELS = map[a]" +:+ NL +:+ "LABELS = map[b]".

(** An alert whose description ends in the tag. *)
Definition crashed_alert : PrometheusAlert.t :=
  sample_alert ∅
    {[ "description" := VStr "Pod crashed LABELS = map[severity:critical]" ]}.

(** An alert whose "description" annotation is the number 5. *)
Definition numeric_description_alert : PrometheusAlert.t :=
  sample_alert ∅ {[ "description" := VInt 5 ]}.

(** An alert whose "severity" label is a list. *)
Definition list_severity_alert : PrometheusAlert.t :=
  sample_alert {[ "severity" := VList [VStr "critical"] ]} ∅.

(** An alert with the label [alertname] and no annotation. *)
Definition highcpu_alert : PrometheusAlert.t :=
  sample_alert {[ "alertname" := VStr "HighCPU"; "severity" := VStr "warning" ]} ∅.

(** An alert with a summary. *)
Definition diskfull_alert : PrometheusAlert.t :=
  sample_alert {[ "alertname" := VStr "HighCPU" ]} {[ "summary" := VStr "Disk full" ]}.

(** A payload with the five required fields and no alerts. *)
Definition minimal_payload : gmap string PyVal :=
  {[ "externalURL" := VStr "http://alertmanager";
     "groupKey" := VStr "{}:{}";
     "version" := VStr "4";
     "receiver" := VStr "robusta";
     "status" := VStr "firing" ]}.

(** The same payload with a number where the common labels should be. *)
Definition numeric_commonLabels_payload : gmap string PyVal :=
  <[ "commonLabels" := VInt 5 ]> minimal_payload.

(** *** More sample values *)



(** An event without its alert. *)
Definition no_alert_event : PrometheusKubernetesAlert.t :=
  PrometheusKubernetesAlert.Build None (Some "HighCPU") None None None None None None.

(** Validators for the examples: a [datetime] is read from an integer, taken
    as the seconds since the epoch in UTC; a string and a dictionary are
    admitted as they are, and nothing else is. *)
Definition example_validators : Validators :=
  {| datetime_validator := fun v =>
       match v with
       | VInt n => Some {| epoch_microseconds := n * 1000000; utcoffset := Some 0%Z |}
       | _ => None
       end;
     str_validator := fun v => match v with VStr s => Some s | _ => None end;
     dict_validator := fun v => match v with VDict d => Some d | _ => None end;
     str_validator_str := fun s => eq_refl;
     dict_validator_dict := fun d => eq_refl;
     dict_validator_int := fun n => eq_refl |}.

Definition firing_labels : gmap string PyVal :=
  {[ "alertname" := VStr "HighCPU"; "severity" := VStr "critical" ]}.

Definition firing_annotations : gmap string PyVal :=
  {[ "summary" := VStr "CPU is high";
     "description" := VStr "CPU above 90% LABELS = map[severity:critical]" ]}.

(** A decoded alert as Alertmanager sends it. *)
Definition firing_alert_payload : gmap string PyVal :=
  {[ "endsAt" := VInt 0;
     "generatorURL" := VStr "http://prometheus/graph";
     "startsAt" := VInt 1700000000;
     "status" := VStr "firing";
     "labels" := VDict firing_labels;
     "annotations" := VDict firing_annotations ]}.

(** The same alert with an explicit null fingerprint. *)
Definition null_fingerprint_payload : gmap string PyVal :=
  <[ "fingerprint" := VNone ]> firing_alert_payload.


(** Report blocks for the examples: the text itself. The statements about
    the actions hold for every [Bash.Reporting]. *)
Definition example_reporting : Bash.Reporting :=
  {| Bash.BaseBlock := string; Bash.MarkdownBlock := fun text => text |}.

(** Surroundings for the examples: a command run in a pod prints itself, a
    command run on a node fails, an event is printed as its class name. *)
Definition example_cluster : Bash.Cluster :=
  {| Bash.pod_exec := fun _ command => Ok command;
     Bash.exec_in_debugger_pod := fun _ _ _ => Raise AttributeError;
     Bash.str_PodEvent := fun _ => "PodEvent";
     Bash.str_NodeEvent := fun _ => "NodeEvent" |}.

Definition uptime : Bash.BashParams := {| Bash.bash_command := "uptime" |}.

Definition pod_event : Bash.PodEvent :=
  {| Bash.get_pod := Some (Hikaru.with_metadata (resource "p1" (Some "ns1"))) |}.

Definition node_event : Bash.NodeEvent :=
  {| Bash.get_node := Some (Hikaru.with_metadata (resource "n1" None)) |}.

(** A reference whose metadata is not set. *)
Definition bare_object : Hikaru.Object := {| Hikaru.metadata := None |}.

(** An event for the alert [a] named [HighCPU] with the given pod and node,
    as hikaru gives them. *)
Definition hikaru_event (a : PrometheusAlert.t) (pod node : option Hikaru.Object)
  : Hikaru.Event :=
  {| Hikaru.alert := Some a; Hikaru.alert_name := Some "HighCPU";
     Hikaru.alert_severity := None; Hikaru.node := node; Hikaru.pod := pod;
     Hikaru.deployment := None; Hikaru.job := None; Hikaru.daemonset := None |}.

(** ** The model at work *)

Example strip_labels_crashed :
  strip_labels "Pod crashed LABELS = map[severity:critical]" = "Pod crashed ".
Proof. reflexivity. Qed.

Example strip_labels_keeps_last_newline :
  strip_labels ("Pod crashed LABELS = map[severity:critical]" +:+ NL)
  = "Pod crashed " +:+ NL.
Proof. reflexivity. Qed.

Example strip_labels_two_tagged_lines :
  strip_labels two_tagged_lines = "LABELS = map[a]" +:+ NL.
Proof. reflexivity. Qed.

Example strip_labels_twice_two_tagged_lines :
  strip_labels (strip_labels two_tagged_lines) = NL.
Proof. reflexivity. Qed.

Example strip_labels_text_behind :
  strip_labels "LABELS = map[a] and more" = "LABELS = map[a] and more".
Proof. reflexivity. Qed.

Example strip_labels_from_first_tag :
  strip_labels "x LABELS = map[a] y LABELS = map[b]" = "x ".
Proof. reflexivity. Qed.

Example severity_of_number : severity_get (VInt 3) INFO = Ok INFO.
Proof. reflexivity. Qed.

Example severity_of_list : severity_get (VList []) INFO = Raise TypeError.
Proof. reflexivity. Qed.
(** ** Facts about the matcher *)

Section MatcherFacts.

Import Re.

Implicit Types (s p q r w : list ascii) (pat : list atom).

Lemma match_here_lits (l : list ascii) pat s r :
  match_here (map Lit l ++ pat) s = Some r <->
  exists s', s = l ++ s' /\ match_here pat s' = Some r.
Proof.
  revert s. induction l as [|c l IH]; intros s; simpl.
  - split; [intros H; exists s; auto | intros (s' & -> & H); exact H].
  - destruct s as [|c' s'].
    + split; [discriminate | intros (s' & Hs & _); discriminate].
    + destruct (Ascii.eqb_spec c c') as [<-|Hne].
      * rewrite IH. split.
        -- intros (s'' & -> & H). exists s''. auto.
        -- intros (s'' & Hs & H). injection Hs as ->. exists s''. auto.
      * split; [discriminate | intros (s'' & Hs & _); congruence].
Qed.

Lemma match_here_close s r :
  match_here [Lit close_bracket; EndAnchor] s = Some r <->
  s = close_bracket :: r /\ at_end r = true.
Proof.
  cbn [match_here]. destruct s as [|c s'].
  - split; [discriminate | intros [? _]; discriminate].
  - destruct (Ascii.eqb_spec close_bracket c) as [<-|Hne].
    + destruct (at_end s') eqn:E.
      * split; [intros [= ->]; auto | intros [[= ->] _]; auto].
      * split; [discriminate | intros [[= ->] H]; congruence].
    + split; [discriminate | intros [[= ?] _]; congruence].
Qed.

Lemma at_end_no_close r :
  at_end r = true -> match_here [DotStar; Lit close_bracket; EndAnchor] r = None.
Proof.
  destruct r as [|c [|c' r']]; cbn [at_end]; try discriminate.
  - reflexivity.
  - intros Hc. apply Ascii.eqb_eq in Hc. subst c. reflexivity.
Qed.

Lemma match_here_star_close s r :
  match_here [DotStar; Lit close_bracket; EndAnchor] s = Some r <->
  exists w, s = w ++ close_bracket :: r /\ one_line w /\ at_end r = true.
Proof.
  split.
  - revert r. induction s as [|c s' IH]; intros r H.
    + simpl in H. discriminate.
    + change (match_here [DotStar; Lit close_bracket; EndAnchor] (c :: s'))
        with (if is_newline c
              then match_here [Lit close_bracket; EndAnchor] (c :: s')
              else match match_here [DotStar; Lit close_bracket; EndAnchor] s' with
                   | Some r => Some r
                   | None => match_here [Lit close_bracket; EndAnchor] (c :: s')
                   end) in H.
      destruct (is_newline c) eqn:Hc.
      * apply match_here_close in H as [[= -> ->] _]. discriminate Hc.
      * destruct (match_here [DotStar; Lit close_bracket; EndAnchor] s') as [r'|] eqn:E.
        -- injection H as ->. destruct (IH r eq_refl) as (w & -> & Hw & Hr).
           exists (c :: w). repeat split; auto. constructor; auto.
        -- apply match_here_close in H as [[= -> ->] Hr].
           exists []. repeat split; auto. constructor.
  - intros (w & -> & Hw & Hr). induction Hw as [|c w Hc Hw IH].
    + change (match_here [DotStar; Lit close_bracket; EndAnchor] ([] ++ close_bracket :: r))
        with (match match_here [DotStar; Lit close_bracket; EndAnchor] r with
              | Some r => Some r
              | None => match_here [Lit close_bracket; EndAnchor] (close_bracket :: r)
              end).
      rewrite (at_end_no_close r Hr). apply match_here_close. auto.
    + change (match_here [DotStar; Lit close_bracket; EndAnchor] ((c :: w) ++ close_bracket :: r))
        with (if is_newline c
              then match_here [Lit close_bracket; EndAnchor] (c :: w ++ close_bracket :: r)
              else match match_here [DotStar; Lit close_bracket; EndAnchor] (w ++ close_bracket :: r) with
                   | Some r => Some r
                   | None => match_here [Lit close_bracket; EndAnchor] (c :: w ++ close_bracket :: r)
                   end).
      rewrite Hc, IH. reflexivity.
Qed.

(** The matcher accepts exactly the tagged texts. *)
Lemma match_here_tagged q r :
  match_here LABELS_PATTERN q = Some r <-> tagged q r.
Proof.
  unfold LABELS_PATTERN, lits, tagged. fold prefix_chars.
  rewrite match_here_lits. split.
  - intros (s' & -> & H). apply match_here_star_close in H as (w & -> & Hw & Hr).
    exists w. auto.
  - intros (w & -> & Hw & Hr). exists (w ++ close_bracket :: r). split; auto.
    apply match_here_star_close. exists w. auto.
Qed.

Lemma tagged_length q r : tagged q r -> length r + 14 <= length q.
Proof.
  intros (w & -> & _ & _). rewrite !length_app.
  change (length prefix_chars) with 13. cbn [length]. lia.
Qed.

Lemma tagged_inv_cons q r :
  tagged q r -> exists m, q = "L"%char :: m ++ r.
Proof.
  intros (w & -> & _ & _). exists (tl prefix_chars ++ w ++ [close_bracket]).
  rewrite <- !app_assoc. reflexivity.
Qed.

Lemma sub_from_skip pat k s : sub_from pat k s = sub_from pat 0 (drop k s).
Proof.
  revert k. induction s as [|c s IH]; intros [|k]; try reflexivity.
  cbn [sub_from drop]. apply IH.
Qed.

Lemma sub_from_at_end r : at_end r = true -> sub_from LABELS_PATTERN 0 r = r.
Proof.
  destruct r as [|c [|c' r']]; cbn [at_end]; try discriminate.
  - reflexivity.
  - intros Hc. apply Ascii.eqb_eq in Hc. subst c. reflexivity.
Qed.

(** A tagged text is replaced by what follows the tag. *)
Lemma sub_from_tagged q r : tagged q r -> sub_from LABELS_PATTERN 0 q = r.
Proof.
  intros H. pose proof (proj2 (match_here_tagged q r) H) as Hm.
  destruct (tagged_inv_cons q r H) as (m & ->).
  destruct H as (_ & _ & _ & Hr).
  cbn [sub_from]. rewrite Hm.
  replace (length ("L"%char :: m ++ r) - length r) with (S (length m))
    by (cbn [length]; rewrite length_app; lia).
  rewrite sub_from_skip, drop_app_length. apply sub_from_at_end, Hr.
Qed.

Lemma sub_from_untagged c s :
  match_here LABELS_PATTERN (c :: s) = None ->
  sub_from LABELS_PATTERN 0 (c :: s) = c :: sub_from LABELS_PATTERN 0 s.
Proof. intros H. cbn [sub_from]. rewrite H. reflexivity. Qed.

Lemma not_tagged_nil r : ~ tagged [] r.
Proof. intros H. apply tagged_length in H. cbn in H. lia. Qed.

(** What the substitution does: nothing on a text without a tag; otherwise
    the leftmost tag is removed and the text before it and the last newline
    stay. *)
Lemma sub_from_spec s :
  (untagged s /\ sub_from LABELS_PATTERN 0 s = s) \/
  (exists p q r, first_tag s p q r /\ sub_from LABELS_PATTERN 0 s = p ++ r).
Proof.
  induction s as [|c s IH].
  - left. split; [|reflexivity]. intros p q r Hs Ht.
    symmetry in Hs. apply app_eq_nil in Hs as [_ ->]. exact (not_tagged_nil r Ht).
  - destruct (match_here LABELS_PATTERN (c :: s)) as [r|] eqn:Hm.
    + right. apply match_here_tagged in Hm. exists [], (c :: s), r.
      split; [|apply sub_from_tagged, Hm].
      split; [reflexivity|]. split; [exact Hm|]. intros. cbn. lia.
    + assert (Hhead : forall r, ~ tagged (c :: s) r).
      { intros r Ht. apply match_here_tagged in Ht. congruence. }
      rewrite (sub_from_untagged c s Hm).
      destruct IH as [[Hu Hs]|(p & q & r & (Hs & Ht & Hmin) & Hsub)].
      * left. split; [|rewrite Hs; reflexivity].
        intros [|c' p] q r Heq Ht.
        -- cbn in Heq. subst q. exact (Hhead r Ht).
        -- injection Heq as -> ->. exact (Hu p q r eq_refl Ht).
      * right. exists (c :: p), q, r. split; [|rewrite Hsub; reflexivity].
        split; [rewrite Hs; reflexivity|]. split; [exact Ht|].
        intros [|c' p1] q1 r1 Heq Ht1.
        -- cbn in Heq. subst q1. destruct (Hhead r1 Ht1).
        -- injection Heq as -> Heq. cbn [length].
           specialize (Hmin p1 q1 r1 Heq Ht1). lia.
Qed.

End MatcherFacts.

(** ** Facts about the substitution *)

Section StripFacts.

Import Re.

Implicit Types (s p q r w a b : list ascii).

Lemma one_line_prefix_chars : one_line prefix_chars.
Proof. repeat constructor. Qed.

Lemma one_line_app a b : one_line (a ++ b) <-> one_line a /\ one_line b.
Proof. apply Forall_app. Qed.

Lemma at_end_cases r : at_end r = true -> r = [] \/ r = [newline].
Proof.
  destruct r as [|c [|c' r']]; cbn [at_end]; try discriminate; auto.
  intros Hc. apply Ascii.eqb_eq in Hc. subst c. auto.
Qed.

(** Two tags in a row on one line read as one tag. *)
Lemma tagged_join w q r :
  one_line w -> tagged q r -> tagged (prefix_chars ++ w ++ close_bracket :: q) r.
Proof.
  intros Hw (w' & -> & Hw' & Hr).
  exists (w ++ close_bracket :: prefix_chars ++ w'). split; [|split; [|exact Hr]].
  - rewrite <- !app_assoc. reflexivity.
  - apply one_line_app. split; [exact Hw|].
    constructor; [reflexivity|]. apply one_line_app. split; [|exact Hw'].
    exact one_line_prefix_chars.
Qed.

Lemma first_tag_not_later s p q r w p1 :
  first_tag s p q r -> one_line w ->
  p = p1 ++ prefix_chars ++ w ++ [close_bracket] -> False.
Proof.
  intros (Hs & Ht & Hmin) Hw Hp.
  specialize (Hmin p1 (prefix_chars ++ w ++ close_bracket :: q) r).
  assert (Hlen : length p <= length p1).
  { apply Hmin; [|apply tagged_join; assumption].
    rewrite Hs, Hp. rewrite <- !app_assoc. reflexivity. }
  rewrite Hp, !length_app in Hlen. cbn [length] in Hlen. lia.
Qed.

(** After the leftmost tag is removed, a tag can only be left in one way: the
    removed tag stood at the start of the last line, and the line before it
    ends in a tag. *)
Lemma residual_tag s p q r p1 q1 r1 :
  first_tag s p q r -> p ++ r = p1 ++ q1 -> tagged q1 r1 ->
  r = [] /\ r1 = [newline] /\
  exists a b, s = a ++ close_bracket :: newline :: prefix_chars ++ b.
Proof.
  intros Hf Heq (w1 & -> & Hw1 & Hr1).
  pose proof Hf as (Hs & (w & Hq & Hw & Hr) & _).
  destruct (at_end_cases r Hr) as [->| ->], (at_end_cases r1 Hr1) as [->| ->].
  - rewrite app_nil_r in Heq.
    destruct (first_tag_not_later _ _ _ _ w1 p1 Hf Hw1 Heq).
  - split; [reflexivity|]. split; [reflexivity|].
    rewrite app_nil_r in Heq.
    exists (p1 ++ prefix_chars ++ w1), (w ++ [close_bracket]).
    rewrite Hs, Heq, Hq. rewrite <- !app_assoc. reflexivity.
  - exfalso.
    replace (p1 ++ prefix_chars ++ w1 ++ [close_bracket])
      with ((p1 ++ prefix_chars ++ w1) ++ [close_bracket]) in Heq
      by (rewrite <- !app_assoc; reflexivity).
    apply app_inj_tail in Heq as [_ Hc]. discriminate Hc.
  - exfalso.
    replace (p1 ++ prefix_chars ++ w1 ++ [close_bracket; newline])
      with ((p1 ++ prefix_chars ++ w1 ++ [close_bracket]) ++ [newline]) in Heq
      by (rewrite <- !app_assoc; reflexivity).
    apply app_inj_tail in Heq as [Hp _].
    exact (first_tag_not_later _ _ _ _ w1 p1 Hf Hw1 Hp).
Qed.

Lemma sub_from_untagged_id s : untagged s -> sub_from LABELS_PATTERN 0 s = s.
Proof.
  intros Hu. destruct (sub_from_spec s) as [[_ Hs]|(p & q & r & (Hs & Ht & _) & _)].
  - exact Hs.
  - destruct (Hu p q r Hs Ht).
Qed.


(** The substitution is idempotent unless a tag that ends a line is directly
    followed by the tag of the last line. *)
Lemma sub_from_idempotent s :
  (forall a b, s <> a ++ close_bracket :: newline :: prefix_chars ++ b) ->
  sub_from LABELS_PATTERN 0 (sub_from LABELS_PATTERN 0 s)
  = sub_from LABELS_PATTERN 0 s.
Proof.
  intros Hno.
  destruct (sub_from_spec s) as [[_ Hs]|(p & q & r & Hf & Hs)].
  - rewrite Hs. exact Hs.
  - rewrite Hs. apply sub_from_untagged_id. intros p1 q1 r1 Heq Ht.
    destruct (residual_tag _ _ _ _ _ _ _ Hf Heq Ht) as (_ & _ & a & b & Hab).
    exact (Hno a b Hab).
Qed.

(** A text that does not end in a closing bracket, an optional last newline
    apart, has no tag. *)
Lemma untagged_no_close s :
  (forall p, s <> p ++ [close_bracket]) ->
  (forall p, s <> p ++ [close_bracket; newline]) ->
  untagged s.
Proof.
  intros H1 H2 p q r Hs (w & -> & _ & Hr).
  destruct (at_end_cases r Hr) as [->| ->].
  - apply (H1 (p ++ prefix_chars ++ w)). rewrite Hs, <- !app_assoc. reflexivity.
  - apply (H2 (p ++ prefix_chars ++ w)). rewrite Hs, <- !app_assoc. reflexivity.
Qed.

(** A newline that is not the last character cuts every tag before it; if no
    tag starts behind it, the text has no tag. *)
Lemma untagged_newline a b :
  b <> [] ->
  (forall x y, b <> x ++ prefix_chars ++ y) ->
  untagged (a ++ newline :: b).
Proof.
  intros Hb Hno p q r Hs (w & Hq & Hw & Hr).
  apply app_eq_inv in Hs as [(k & Ha & Hk)|(k & Hp & Hk)].
  - assert (Hm : one_line (prefix_chars ++ w ++ [close_bracket])).
    { apply one_line_app. split; [exact one_line_prefix_chars|].
      apply one_line_app. split; [exact Hw|]. repeat constructor. }
    assert (Hq' : k ++ newline :: b = (prefix_chars ++ w ++ [close_bracket]) ++ r).
    { rewrite <- Hk, Hq, <- !app_assoc. reflexivity. }
    apply app_eq_inv in Hq' as [(k' & Hk1 & Hk2)|(k' & Hk1 & Hk2)].
    + destruct (at_end_cases r Hr) as [->| ->].
      * destruct k'; discriminate Hk2.
      * destruct k' as [|c [|c' k']]; try discriminate Hk2.
        injection Hk2 as Hb'. exact (Hb (eq_sym Hb')).
    + destruct k' as [|c k'].
      * cbn in Hk2. subst r. cbn [at_end] in Hr.
        destruct b; [exact (Hb eq_refl)|discriminate Hr].
      * injection Hk2 as <- _. rewrite Hk1 in Hm.
        apply one_line_app in Hm as [_ Hm]. inversion Hm as [|? ? Hc _].
        discriminate Hc.
  - destruct k as [|c k].
    + cbn in Hk. rewrite Hq in Hk. discriminate Hk.
    + injection Hk as _ Hb'. apply (Hno k (w ++ close_bracket :: r)).
      rewrite Hb', Hq. reflexivity.
Qed.

End StripFacts.

(** ** From lists of characters to strings *)

Section StringFacts.

Import Re.

Lemma chars_app (a b : string) :
  list_ascii_of_string (a +:+ b) = list_ascii_of_string a ++ list_ascii_of_string b.
Proof.
  induction a as [|c a IH]; [reflexivity|].
  change (String c a +:+ b) with (String c (a +:+ b)).
  cbn [list_ascii_of_string app]. rewrite IH. reflexivity.
Qed.

Lemma text_app (a b : list ascii) :
  string_of_list_ascii (a ++ b) = string_of_list_ascii a +:+ string_of_list_ascii b.
Proof.
  induction a as [|c a IH]; [reflexivity|].
  cbn [string_of_list_ascii app]. rewrite IH. reflexivity.
Qed.

Lemma chars_inj (a b : string) :
  list_ascii_of_string a = list_ascii_of_string b -> a = b.
Proof.
  intros Heq. rewrite <- (string_of_list_ascii_of_string a), Heq.
  apply string_of_list_ascii_of_string.
Qed.

Lemma chars_strip_labels (s : string) :
  list_ascii_of_string (strip_labels s)
  = sub_from LABELS_PATTERN 0 (list_ascii_of_string s).
Proof. apply list_ascii_of_string_of_list_ascii. Qed.

Lemma occurs_chars (x s : string) (a b : list ascii) :
  list_ascii_of_string s = a ++ list_ascii_of_string x ++ b -> occurs x s.
Proof.
  intros Heq. exists (string_of_list_ascii a), (string_of_list_ascii b).
  apply chars_inj. rewrite !chars_app, !list_ascii_of_string_of_list_ascii.
  exact Heq.
Qed.

Lemma tagged_LabelsTag (w : list ascii) :
  one_line w ->
  LabelsTag (string_of_list_ascii (prefix_chars ++ w ++ [close_bracket])).
Proof.
  intros Hw. exists (string_of_list_ascii w). split.
  - rewrite !text_app. reflexivity.
  - unfold SingleLine. rewrite list_ascii_of_string_of_list_ascii. exact Hw.
Qed.


Lemma at_end_LastNewline (r : list ascii) :
  at_end r = true -> LastNewline (string_of_list_ascii r).
Proof. intros Hr. destruct (at_end_cases r Hr) as [->| ->]; [left|right]; reflexivity. Qed.

(** What [strip_labels] does to a description: either nothing, or the
    description is [p], a tag [m] and at most a last newline [t], and the
    result is [p] followed by [t]. *)
Lemma strip_labels_shape (s : string) :
  exists p m t, s = p +:+ m +:+ t /\ strip_labels s = p +:+ t /\
    ((m = "" /\ t = "" /\ strip_labels s = s) \/ (LabelsTag m /\ LastNewline t)).
Proof.
  destruct (sub_from_spec (list_ascii_of_string s))
    as [[_ Hs]|(p & q & r & (Hs & (w & -> & Hw & Hr) & _) & Hsub)].
  - assert (Hid : strip_labels s = s).
    { apply chars_inj. rewrite chars_strip_labels. exact Hs. }
    exists s, "", "". split; [|split; [|left; auto]].
    + apply chars_inj. rewrite !chars_app. cbn. rewrite app_nil_r. reflexivity.
    + rewrite Hid. apply chars_inj. rewrite !chars_app. cbn.
      rewrite app_nil_r. reflexivity.
  - exists (string_of_list_ascii p),
      (string_of_list_ascii (prefix_chars ++ w ++ [close_bracket])),
      (string_of_list_ascii r).
    split; [|split; [|right; split]].
    + apply chars_inj. rewrite !chars_app, !list_ascii_of_string_of_list_ascii.
      rewrite Hs, <- !app_assoc. reflexivity.
    + apply chars_inj.
      rewrite chars_strip_labels, chars_app, !list_ascii_of_string_of_list_ascii.
      exact Hsub.
    + apply tagged_LabelsTag, Hw.
    + apply at_end_LastNewline, Hr.
Qed.



Lemma strip_labels_untagged (s : string) :
  untagged (list_ascii_of_string s) -> strip_labels s = s.
Proof.
  intros Hu. apply chars_inj. rewrite chars_strip_labels.
  apply sub_from_untagged_id, Hu.
Qed.

End StringFacts.

(** ** The description *)

Section Description.

Lemma get_description_absent self a :
  alert self = Some a ->
  PrometheusAlert.annotations a !! "description" = None ->
  get_description self = Ok "".
Proof.
  intros Ha Hd. unfold get_description, the_alert, dict_get. rewrite Ha. cbn.
  rewrite Hd. reflexivity.
Qed.


Lemma get_description_str self a s :
  alert self = Some a ->
  PrometheusAlert.annotations a !! "description" = Some (VStr s) ->
  get_description self = Ok (strip_labels s).
Proof.
  intros Ha Hd. unfold get_description, the_alert, dict_get, subscript.
  rewrite Ha. cbn. rewrite Hd. cbn.
  destruct (String.eqb_spec s "") as [->|Hne]; reflexivity.
Qed.

Lemma not_In_occurs (c : ascii) (x : string) :
  ~ occurs (String c "") x -> ~ In c (list_ascii_of_string x).
Proof.
  intros Hno Hin. apply in_split in Hin as (a & b & Heq).
  apply Hno. apply (occurs_chars _ _ a b). exact Heq.
Qed.

Lemma occurs_In (c : ascii) (x s : string) :
  occurs x s -> In c (list_ascii_of_string x) -> In c (list_ascii_of_string s).
Proof.
  intros (a & b & ->) Hin. rewrite !chars_app.
  apply in_or_app. right. apply in_or_app. left. exact Hin.
Qed.

Lemma SingleLine_no_newline (s : string) :
  SingleLine s -> ~ In Re.newline (list_ascii_of_string s).
Proof.
  intros Hs Hin. unfold SingleLine, one_line in Hs.
  rewrite Forall_forall in Hs. specialize (Hs _ (proj2 (list_elem_of_In _ _) Hin)).
  discriminate Hs.
Qed.

(** Idempotence holds unless a tag that ends a line is directly followed by
    the tag of the last line. *)
Lemma strip_labels_idempotent_if (s : string) :
  ~ occurs ("]" +:+ NL +:+ LABELS_PREFIX) s ->
  strip_labels (strip_labels s) = strip_labels s.
Proof.
  intros Hno. apply chars_inj. rewrite !chars_strip_labels.
  apply sub_from_idempotent. intros a b Heq. apply Hno.
  apply (occurs_chars _ _ a b). rewrite Heq. reflexivity.
Qed.

(** Text after the last closing bracket, other than one last newline, keeps
    every tag from matching. *)
Lemma untagged_trailing_text (s x : list ascii) :
  x <> [] -> x <> [Re.newline] -> ~ In close_bracket x -> untagged (s ++ x).
Proof.
  intros Hx Hnl Hno.
  destruct (exists_last Hx) as (x' & c & ->).
  apply untagged_no_close.
  - intros p Heq. rewrite app_assoc in Heq.
    apply app_inj_tail in Heq as [_ ->].
    apply Hno, in_or_app. right. left. reflexivity.
  - intros p Heq.
    replace (p ++ [close_bracket; Re.newline])
      with ((p ++ [close_bracket]) ++ [Re.newline]) in Heq
      by (rewrite <- app_assoc; reflexivity).
    rewrite app_assoc in Heq. apply app_inj_tail in Heq as [Heq ->].
    destruct x' as [|c0 x0].
    + apply Hnl. reflexivity.
    + assert (Hx' : c0 :: x0 <> []) by discriminate.
      destruct (exists_last Hx') as (x'' & c' & Hx'').
      rewrite Hx'', app_assoc in Heq. apply app_inj_tail in Heq as [_ ->].
      apply Hno. rewrite Hx''. apply in_or_app. left.
      apply in_or_app. right. left. reflexivity.
Qed.



(** C6, as the spec states it, fails: on two tagged lines the first strip
    removes the tag of the last line, and the second one then removes the tag
    that now ends the text before the last newline. *)
Lemma C6_counterexample :
  ~ (forall s, strip_labels (strip_labels s) = strip_labels s).
Proof.
  intros Hidem. specialize (Hidem two_tagged_lines).
  vm_compute in Hidem. discriminate Hidem.
Qed.

(** C6 (amended): Description stripping is idempotent on every description in
    which no ["]"], newline, ["LABELS = map["] follow each other directly; in
    particular on every description without a newline. *)
Theorem C6_strip_idempotent :
  (forall s, ~ occurs ("]" +:+ NL +:+ LABELS_PREFIX) s ->
     strip_labels (strip_labels s) = strip_labels s) /\
  (forall s, SingleLine s -> strip_labels (strip_labels s) = strip_labels s).
Proof.
  split; [exact strip_labels_idempotent_if|].
  intros s Hs. apply strip_labels_idempotent_if. intros Hocc.
  apply (SingleLine_no_newline s Hs).
  apply (occurs_In _ _ _ Hocc). right. left. reflexivity.
Qed.

Lemma C6_witness :
  strip_labels (strip_labels "Pod crashed LABELS = map[severity:critical]")
  = strip_labels "Pod crashed LABELS = map[severity:critical]".
Proof.
  apply (proj2 C6_strip_idempotent). repeat constructor.
Defined.

(** C10, as the spec states it, fails: a tag that spans a newline is cut
    where a second tag follows the newline and ends the description. *)
Lemma C10_counterexample :
  strip_labels ("LABELS = map[a" +:+ NL +:+ "LABELS = map[b]") = "LABELS = map[a" +:+ NL
  /\ ~ (forall p w b, b <> "" ->
          strip_labels (p +:+ LABELS_PREFIX +:+ w +:+ NL +:+ b)
          = p +:+ LABELS_PREFIX +:+ w +:+ NL +:+ b).
Proof.
  split; [reflexivity|]. intros Hsame.
  specialize (Hsame "" "a" "LABELS = map[b]"). vm_compute in Hsame.
  assert (Hne : "LABELS = map[b]" <> "") by discriminate.
  specialize (Hsame Hne). discriminate Hsame.
Qed.

(** C10 (amended): Description stripping only removes a tag [LABELS = map[...]]
    that contains no newline and ends exactly at the end of the string or
    immediately before one final newline. A description in which the closing
    bracket is followed by further text without a bracket (other than one
    final newline), or in which a newline that is not the last character is
    followed by no further [LABELS = map[], is returned unchanged. *)
Theorem C10_strip_only_trailing :
  (forall s, exists p m t, s = p +:+ m +:+ t /\ strip_labels s = p +:+ t /\
     ((m = "" /\ t = "" /\ strip_labels s = s) \/ (LabelsTag m /\ LastNewline t))) /\
  (forall p w x, x <> "" -> x <> NL -> ~ occurs "]" x ->
     strip_labels (p +:+ LABELS_PREFIX +:+ w +:+ "]" +:+ x)
     = p +:+ LABELS_PREFIX +:+ w +:+ "]" +:+ x) /\
  (forall p w b, b <> "" -> ~ occurs LABELS_PREFIX b ->
     strip_labels (p +:+ LABELS_PREFIX +:+ w +:+ NL +:+ b)
     = p +:+ LABELS_PREFIX +:+ w +:+ NL +:+ b).
Proof.
  split; [exact strip_labels_shape|]. split.
  - intros p w x Hx Hnl Hno. apply strip_labels_untagged.
    rewrite !chars_app, !app_assoc.
    apply untagged_trailing_text.
    + intros Heq. apply Hx, chars_inj. rewrite Heq. reflexivity.
    + intros Heq. apply Hnl, chars_inj. rewrite Heq. reflexivity.
    + apply not_In_occurs. exact Hno.
  - intros p w b Hb Hno. apply strip_labels_untagged.
    rewrite !chars_app.
    replace (list_ascii_of_string p ++ list_ascii_of_string LABELS_PREFIX
             ++ list_ascii_of_string w ++ list_ascii_of_string NL
             ++ list_ascii_of_string b)
      with ((list_ascii_of_string p ++ list_ascii_of_string LABELS_PREFIX
             ++ list_ascii_of_string w) ++ Re.newline :: list_ascii_of_string b)
      by (rewrite <- !app_assoc; reflexivity).
    apply untagged_newline.
    + intros Heq. apply Hb, chars_inj. rewrite Heq. reflexivity.
    + intros x y Heq. apply Hno. apply (occurs_chars _ _ x y). exact Heq.
Qed.

Lemma C10_witness :
  strip_labels "LABELS = map[a] and more" = "LABELS = map[a] and more"
  /\ strip_labels ("x LABELS = map[a" +:+ NL +:+ "b]") = "x LABELS = map[a" +:+ NL +:+ "b]".
Proof.
  split.
  - apply (proj1 (proj2 C10_strip_only_trailing) "" "a" " and more").
    + discriminate.
    + discriminate.
    + intros Hocc. apply (occurs_In close_bracket) in Hocc; [|left; reflexivity].
      cbn in Hocc. repeat (destruct Hocc as [Hocc|Hocc]; [discriminate Hocc|]).
      exact Hocc.
  - apply (proj2 (proj2 C10_strip_only_trailing) "x " "a" "b]").
    + discriminate.
    + intros Hocc. apply (occurs_In "L"%char) in Hocc; [|left; reflexivity].
      cbn in Hocc. repeat (destruct Hocc as [Hocc|Hocc]; [discriminate Hocc|]).
      exact Hocc.
Defined.

End Description.

(** ** Severity, subject, title and the finding *)

Section FindingFacts.

Lemma get_severity_eq self a :
  alert self = Some a ->
  get_severity self = severity_get (dict_get (PrometheusAlert.labels a) "severity") INFO.
Proof. intros Ha. unfold get_severity, the_alert. rewrite Ha. reflexivity. Qed.

Lemma severity_get_str s : severity_get (VStr s) INFO = Ok (severityOf (Some s)).
Proof.
  unfold severity_get, severityOf, SEVERITY_MAP. cbn [hashable]. f_equal.
  destruct (String.eqb_spec s "critical") as [->|H1]; [reflexivity|].
  destruct (String.eqb_spec s "error") as [->|H2]; [reflexivity|].
  destruct (String.eqb_spec s "warning") as [->|H3]; [reflexivity|].
  destruct (decide (s = "info")) as [->|H4]; [reflexivity|].
  rewrite !lookup_insert_ne, lookup_singleton_ne by congruence. reflexivity.
Qed.

Lemma severityOf_other s :
  s <> "critical" -> s <> "error" -> s <> "warning" -> severityOf (Some s) = INFO.
Proof.
  intros H1 H2 H3. unfold severityOf.
  destruct (String.eqb_spec s "critical"); [contradiction|].
  destruct (String.eqb_spec s "error"); [contradiction|].
  destruct (String.eqb_spec s "warning"); [contradiction|]. reflexivity.
Qed.

(** C1: the severity mapping is a total function of the severity label:
    "critical" maps to HIGH, "error" to MEDIUM, "warning" to LOW, "info" to
    INFO, and every other string, the empty one included, to INFO, as do an
    absent label and every hashable value that is no string; no exception is
    raised. *)
Theorem C1_severity_mapping :
  severity_get (VStr "critical") INFO = Ok HIGH /\
  severity_get (VStr "error") INFO = Ok MEDIUM /\
  severity_get (VStr "warning") INFO = Ok LOW /\
  severity_get (VStr "info") INFO = Ok INFO /\
  severity_get (VStr "") INFO = Ok INFO /\
  (forall s, s <> "critical" -> s <> "error" -> s <> "warning" ->
     severity_get (VStr s) INFO = Ok INFO) /\
  (forall s, severity_get (VStr s) INFO = Ok (severityOf (Some s))) /\
  (forall v, hashable v = true -> (forall s, v <> VStr s) ->
     severity_get v INFO = Ok INFO) /\
  (forall self a s, alert self = Some a ->
     PrometheusAlert.labels a !! "severity" = Some (VStr s) ->
     get_severity self = Ok (severityOf (Some s))) /\
  (forall self a, alert self = Some a ->
     PrometheusAlert.labels a !! "severity" = None ->
     get_severity self = Ok INFO).
Proof.
  repeat split; try reflexivity.
  - intros s H1 H2 H3. rewrite severity_get_str, severityOf_other; auto.
  - exact severity_get_str.
  - intros v Hv Hns. unfold severity_get. rewrite Hv.
    destruct v; try reflexivity. destruct (Hns s eq_refl).
  - intros self a s Ha Hs. rewrite (get_severity_eq self a Ha).
    unfold dict_get. rewrite Hs. apply severity_get_str.
  - intros self a Ha Hs. rewrite (get_severity_eq self a Ha).
    unfold dict_get. rewrite Hs. reflexivity.
Qed.

Lemma C1_witness :
  get_severity (sample_event highcpu_alert None None) = Ok LOW
  /\ get_severity (sample_event crashed_alert None None) = Ok INFO
  /\ severity_get (VStr "fatal") INFO = Ok INFO.
Proof.
  pose proof C1_severity_mapping
    as (_ & _ & _ & _ & _ & Hother & _ & _ & Hstr & Habsent).
  split; [|split].
  - exact (Hstr (sample_event highcpu_alert None None) highcpu_alert "warning"
             eq_refl eq_refl).
  - exact (Habsent (sample_event crashed_alert None None) crashed_alert
             eq_refl eq_refl).
  - apply Hother; discriminate.
Defined.



Context `{Builtins}.

Lemma get_title_summary self a v :
  alert self = Some a ->
  PrometheusAlert.annotations a !! "summary" = Some v -> truthy v = true ->
  get_title self = Ok (VStr (py_str v)).
Proof.
  intros Ha Hs Ht. unfold get_title, the_alert, dict_get, subscript.
  rewrite Ha. cbn. rewrite Hs. cbn. rewrite Ht. reflexivity.
Qed.

Lemma get_title_fallback self a :
  alert self = Some a ->
  truthy (dict_get (PrometheusAlert.annotations a) "summary") = false ->
  get_title self = Ok (dict_get_or (PrometheusAlert.labels a) "alertname" (VStr "")).
Proof.
  intros Ha Ht. unfold get_title, the_alert. rewrite Ha. cbn. rewrite Ht.
  reflexivity.
Qed.

Lemma get_title_total self a :
  alert self = Some a -> exists t, get_title self = Ok t.
Proof.
  intros Ha.
  destruct (truthy (dict_get (PrometheusAlert.annotations a) "summary")) eqn:Ht.
  - unfold dict_get in Ht.
    destruct (PrometheusAlert.annotations a !! "summary") as [v|] eqn:Hs;
      [|discriminate Ht].
    eexists. exact (get_title_summary self a v Ha Hs Ht).
  - eexists. exact (get_title_fallback self a Ha Ht).
Qed.

(** C3: the title is the "summary" annotation verbatim when that annotation
    is a non-empty string; when it is absent or empty the title is the
    "alertname" label, and the empty string when that label is absent too.
    In general the title is what the f-string prints for a summary that is
    true in an [if], and the "alertname" label or the empty string for any
    other. *)
Theorem C3_title self a :
  alert self = Some a ->
  (forall s, PrometheusAlert.annotations a !! "summary" = Some (VStr s) ->
     s <> "" -> get_title self = Ok (VStr s)) /\
  (forall v, PrometheusAlert.annotations a !! "summary" = Some v ->
     truthy v = true -> get_title self = Ok (VStr (py_str v))) /\
  (truthy (dict_get (PrometheusAlert.annotations a) "summary") = false ->
     get_title self
     = Ok (dict_get_or (PrometheusAlert.labels a) "alertname" (VStr ""))) /\
  (PrometheusAlert.annotations a !! "summary" = None
   \/ PrometheusAlert.annotations a !! "summary" = Some (VStr "") ->
     (forall v, PrometheusAlert.labels a !! "alertname" = Some v ->
        get_title self = Ok v) /\
     (PrometheusAlert.labels a !! "alertname" = None ->
        get_title self = Ok (VStr ""))).
Proof.
  intros Ha. split.
  - intros s Hs Hne. rewrite (get_title_summary self a (VStr s) Ha Hs).
    + rewrite py_str_str. reflexivity.
    + cbn. destruct (String.eqb_spec s ""); [contradiction|reflexivity].
  - split; [exact (fun v => get_title_summary self a v Ha)|].
    split; [exact (get_title_fallback self a Ha)|].
    intros Hs.
    assert (Ht : truthy (dict_get (PrometheusAlert.annotations a) "summary") = false).
    { unfold dict_get. destruct Hs as [-> | ->]; reflexivity. }
    rewrite (get_title_fallback self a Ha Ht). unfold dict_get_or.
    split; [intros v -> | intros ->]; reflexivity.
Qed.

End FindingFacts.

Lemma C3_witness :
  (forall B : Builtins,
     @get_title B (sample_event diskfull_alert None None) = Ok (VStr "Disk full"))
  /\ (forall B : Builtins,
     @get_title B (sample_event highcpu_alert None None) = Ok (VStr "HighCPU")).
Proof.
  split; intros B.
  - apply (proj1 (@C3_title B (sample_event diskfull_alert None None) diskfull_alert
                    eq_refl) "Disk full"); [reflexivity|discriminate].
  - apply (proj1 (proj2 (proj2 (proj2 (@C3_title B
             (sample_event highcpu_alert None None) highcpu_alert eq_refl)))
             (or_introl eq_refl))).
    reflexivity.
Defined.

(** ** The finding as a whole *)

Section FindingTotality.

Context `{Builtins}.

Lemma get_description_ok_iff self a :
  alert self = Some a ->
  (exists d, get_description self = Ok d) <-> description_ok a.
Proof.
  intros Ha. unfold get_description, the_alert, description_ok, dict_get, subscript.
  rewrite Ha. cbn.
  destruct (PrometheusAlert.annotations a !! "description") as [v|]; cbn.
  - destruct (truthy v) eqn:Ht.
    + split.
      * intros [d Hd]. right. destruct v; try discriminate Hd. eauto.
      * intros [Hf|[s ->]]; [discriminate Hf|]. cbn. eauto.
    + split; [auto|eauto].
  - split; [auto|eauto].
Qed.

Lemma get_severity_ok_iff self a :
  alert self = Some a ->
  (exists sev, get_severity self = Ok sev) <-> severity_ok a.
Proof.
  intros Ha. rewrite (get_severity_eq self a Ha). unfold severity_ok, severity_get.
  destruct (dict_get (PrometheusAlert.labels a) "severity"); cbn;
    split; first [ by eauto | by intros [? ?] | by intros ? ].
Qed.

Lemma create_default_finding_ok_iff self :
  (exists f, create_default_finding self = Ok f) <->
  exists a, alert self = Some a /\ description_ok a /\ severity_ok a.
Proof.
  unfold create_default_finding. split.
  - intros [f Hf]. destruct (alert self) as [a|] eqn:Ha.
    + exists a. split; [reflexivity|].
      destruct (get_title self) as [t|e]; [|discriminate Hf]. cbn in Hf.
      destruct (get_description self) as [d|e] eqn:Hd; [|discriminate Hf].
      cbn in Hf.
      destruct (get_severity self) as [sev|e] eqn:Hs; [|discriminate Hf].
      split.
      * apply (get_description_ok_iff self a Ha). eauto.
      * apply (get_severity_ok_iff self a Ha). eauto.
    + unfold get_title, the_alert in Hf. rewrite Ha in Hf. discriminate Hf.
  - intros (a & Ha & Hd & Hs).
    destruct (get_title_total self a Ha) as [t ->].
    apply (get_description_ok_iff self a Ha) in Hd as [d ->].
    apply (get_severity_ok_iff self a Ha) in Hs as [sev ->].
    cbn. eauto.
Qed.


Lemma str_or_absent_description a :
  str_or_absent (PrometheusAlert.annotations a !! "description") -> description_ok a.
Proof.
  unfold description_ok, dict_get. intros [-> | [s ->]]; cbn; eauto.
Qed.

Lemma str_or_absent_severity a :
  str_or_absent (PrometheusAlert.labels a !! "severity") -> severity_ok a.
Proof.
  unfold severity_ok, dict_get. intros [-> | [s ->]]; reflexivity.
Qed.


End FindingTotality.

(** The interface [Builtins] has an instance. *)
Lemma Builtins_inhabited : inhabited Builtins.
Proof.
  constructor.
  exact {| py_str := fun v => match v with VStr s => s | _ => "" end;
           py_str_str := fun s => eq_refl |}.
Qed.



(** ** Decoding *)

Section ParseFacts.

Context `{Validators}.

Lemma not_none_None {A : Type} (validator : PyVal -> option A) v :
  not_none validator v = None <-> v = VNone \/ validator v = None.
Proof.
  destruct v; cbn; split; auto; intros [Hv|Hv]; auto; discriminate Hv.
Qed.

Lemma required_None {A : Type} (validator : PyVal -> option A) raw name :
  required validator raw name = None <-> missing_or_refused validator raw name.
Proof.
  unfold required, missing_or_refused, missing, refused.
  destruct (raw !! name) as [v|].
  - rewrite not_none_None. split.
    + intros Hv. right. exists v. auto.
    + intros [Hm|(v' & [= <-] & Hv)]; [discriminate Hm|exact Hv].
  - split; auto.
Qed.

Lemma optional_None {A : Type} (validator : PyVal -> option A) raw name dflt :
  optional validator raw name dflt = None <-> refused_optional validator raw name.
Proof.
  unfold optional, refused_optional. destruct (raw !! name) as [v|].
  - split.
    + intros Hv. exists v. split; [reflexivity|].
      destruct v; try discriminate Hv;
        (split; [discriminate|]); destruct (validator _); (discriminate Hv || reflexivity).
    + intros (v' & [= <-] & Hne & Hv).
      destruct v; try contradiction; cbn; rewrite Hv; reflexivity.
  - split; [discriminate|]. intros (v & Hv & _). discriminate Hv.
Qed.

Lemma PrometheusAlert_fields_None d :
  PrometheusAlert_fields d = None <->
  alert_required_bad d \/ refused_optional str_validator d "fingerprint".
Proof.
  unfold alert_required_bad, PrometheusAlert_fields.
  rewrite <- !required_None, <- (optional_None _ _ _ (Some "")).
  destruct (required datetime_validator d "endsAt"); cbn; [|tauto].
  destruct (required str_validator d "generatorURL"); cbn; [|tauto].
  destruct (required datetime_validator d "startsAt"); cbn; [|tauto].
  destruct (optional str_validator d "fingerprint" (Some "")); cbn; [|tauto].
  destruct (required str_validator d "status"); cbn; [|tauto].
  destruct (required dict_validator d "labels"); cbn; [|tauto].
  destruct (required dict_validator d "annotations"); cbn; intuition discriminate.
Qed.

Lemma PrometheusAlert_validate_None v :
  PrometheusAlert_validate v = None <-> alert_bad v.
Proof.
  unfold PrometheusAlert_validate, alert_bad.
  destruct (dict_validator v) as [d|]; cbn.
  - rewrite PrometheusAlert_fields_None. split.
    + intros Hd d' [= <-]. exact Hd.
    + intros Hd. apply Hd. reflexivity.
  - split; [intros _ d Hd; discriminate Hd|reflexivity].
Qed.

Lemma alerts_None raw :
  with_default alerts_validator raw "alerts" [] = None <-> alerts_bad raw.
Proof.
  unfold with_default, alerts_bad. destruct (raw !! "alerts") as [v|].
  - rewrite not_none_None. split.
    + intros Hv. exists v. split; [reflexivity|].
      destruct v as [| | | | |l|]; try exact I.
      destruct Hv as [Hv|Hv]; [discriminate Hv|].
      cbn in Hv. apply mapM_None, Exists_exists in Hv as (x & Hx & Hbad).
      exists x. split; [exact Hx|]. apply PrometheusAlert_validate_None, Hbad.
    + intros (v' & [= <-] & Hv).
      destruct v as [| | | | |l|]; auto.
      right. cbn. apply mapM_None, Exists_exists.
      destruct Hv as (x & Hx & Hbad). exists x. split; [exact Hx|].
      apply PrometheusAlert_validate_None, Hbad.
  - split; [discriminate|]. intros (v & Hv & _). discriminate Hv.
Qed.

Lemma AlertManagerEvent_fields_None raw :
  AlertManagerEvent_fields raw = None <-> payload_bad raw.
Proof.
  unfold payload_bad, top_required_bad, AlertManagerEvent_fields.
  rewrite <- !required_None, <- !(optional_None _ _ _ None), <- alerts_None.
  destruct (with_default alerts_validator raw "alerts" []); cbn; [|tauto].
  destruct (required str_validator raw "externalURL"); cbn; [|tauto].
  destruct (required str_validator raw "groupKey"); cbn; [|tauto].
  destruct (required str_validator raw "version"); cbn; [|tauto].
  destruct (optional dict_validator raw "commonAnnotations" None); cbn; [|tauto].
  destruct (optional dict_validator raw "commonLabels" None); cbn; [|tauto].
  destruct (optional dict_validator raw "groupLabels" None); cbn; [|tauto].
  destruct (required str_validator raw "receiver"); cbn; [|tauto].
  destruct (required str_validator raw "status"); cbn; intuition discriminate.
Qed.

Lemma parse_AlertManagerEvent_Raise raw :
  parse_AlertManagerEvent raw = Raise ValidationError <-> payload_bad raw.
Proof.
  rewrite <- AlertManagerEvent_fields_None. unfold parse_AlertManagerEvent.
  destruct (AlertManagerEvent_fields raw); split; congruence.
Qed.

Lemma parse_AlertManagerEvent_Ok raw e :
  parse_AlertManagerEvent raw = Ok e <-> AlertManagerEvent_fields raw = Some e.
Proof.
  unfold parse_AlertManagerEvent.
  destruct (AlertManagerEvent_fields raw); split; congruence.
Qed.

Lemma required_bad_payload_bad raw : required_bad raw -> payload_bad raw.
Proof.
  intros [Htop|(l & v & Hl & Hv & Hbad)]; [left; exact Htop|].
  right. left. exists (VList l). split; [exact Hl|].
  exists v. split; [exact Hv|]. intros d Hd. left. exact (Hbad d Hd).
Qed.

(** What the parsed payload holds for the fields that are absent. *)
Lemma AlertManagerEvent_fields_defaults raw e :
  AlertManagerEvent_fields raw = Some e ->
  (raw !! "alerts" = None -> AlertManagerEvent.alerts e = []) /\
  (raw !! "commonAnnotations" = None -> AlertManagerEvent.commonAnnotations e = None) /\
  (raw !! "commonLabels" = None -> AlertManagerEvent.commonLabels e = None) /\
  (raw !! "groupLabels" = None -> AlertManagerEvent.groupLabels e = None).
Proof.
  unfold AlertManagerEvent_fields. intros He.
  destruct (with_default alerts_validator raw "alerts" []) as [al|] eqn:Hal;
    cbn in He; [|discriminate He].
  destruct (required str_validator raw "externalURL"); cbn in He; [|discriminate He].
  destruct (required str_validator raw "groupKey"); cbn in He; [|discriminate He].
  destruct (required str_validator raw "version"); cbn in He; [|discriminate He].
  destruct (optional dict_validator raw "commonAnnotations" None) as [ca|] eqn:Hca;
    cbn in He; [|discriminate He].
  destruct (optional dict_validator raw "commonLabels" None) as [cl|] eqn:Hcl;
    cbn in He; [|discriminate He].
  destruct (optional dict_validator raw "groupLabels" None) as [gl|] eqn:Hgl;
    cbn in He; [|discriminate He].
  destruct (required str_validator raw "receiver"); cbn in He; [|discriminate He].
  destruct (required str_validator raw "status"); cbn in He; [|discriminate He].
  injection He as <-. cbn.
  unfold with_default in Hal. unfold optional in Hca, Hcl, Hgl.
  repeat split; intros Habs; rewrite Habs in *; congruence.
Qed.

Lemma PrometheusAlert_fingerprint_default d a :
  parse_PrometheusAlert d = Ok a -> d !! "fingerprint" = None ->
  PrometheusAlert.fingerprint a = Some "".
Proof.
  unfold parse_PrometheusAlert, PrometheusAlert_fields. intros Ha Habs.
  destruct (required datetime_validator d "endsAt"); cbn in Ha; [|discriminate Ha].
  destruct (required str_validator d "generatorURL"); cbn in Ha; [|discriminate Ha].
  destruct (required datetime_validator d "startsAt"); cbn in Ha; [|discriminate Ha].
  unfold optional in Ha. rewrite Habs in Ha. cbn in Ha.
  destruct (required str_validator d "status"); cbn in Ha; [|discriminate Ha].
  destruct (required dict_validator d "labels"); cbn in Ha; [|discriminate Ha].
  destruct (required dict_validator d "annotations"); cbn in Ha; [|discriminate Ha].
  injection Ha as <-. reflexivity.
Qed.

(** C5 (amended): ingestion fails, with a validation error, exactly when a
    required field of the payload or of an alert is missing, null, or holds
    a value that pydantic's validator for the type of the field refuses, or
    a field that is there but optional (fingerprint, commonAnnotations,
    commonLabels, groupLabels, alerts) holds a value, not null (for alerts:
    null as well), that its validator refuses; every other payload is
    parsed. Which values of another type a validator coerces rather than
    refuses (a number for a [str] field, say) is pydantic's matter, and the
    statement holds whatever it does there. In the parsed payload an absent
    commonAnnotations, commonLabels or groupLabels is [None], absent alerts
    are the empty list, and an absent fingerprint is the empty string. *)
Theorem C5_decode_error :
  (forall raw, parse_AlertManagerEvent raw = Raise ValidationError <-> payload_bad raw) /\
  (forall raw, required_bad raw -> parse_AlertManagerEvent raw = Raise ValidationError) /\
  (forall raw, ~ payload_bad raw -> exists e, parse_AlertManagerEvent raw = Ok e) /\
  (forall raw e, parse_AlertManagerEvent raw = Ok e ->
     (raw !! "alerts" = None -> AlertManagerEvent.alerts e = []) /\
     (raw !! "commonAnnotations" = None -> AlertManagerEvent.commonAnnotations e = None) /\
     (raw !! "commonLabels" = None -> AlertManagerEvent.commonLabels e = None) /\
     (raw !! "groupLabels" = None -> AlertManagerEvent.groupLabels e = None)) /\
  (forall d a, parse_PrometheusAlert d = Ok a -> d !! "fingerprint" = None ->
     PrometheusAlert.fingerprint a = Some "").
Proof.
  split; [exact parse_AlertManagerEvent_Raise|].
  split; [intros raw Hbad; apply parse_AlertManagerEvent_Raise,
            required_bad_payload_bad, Hbad|].
  split.
  - intros raw Hok. destruct (parse_AlertManagerEvent raw) as [e|err] eqn:Hp; [eauto|].
    exfalso. apply Hok, parse_AlertManagerEvent_Raise. rewrite Hp.
    unfold parse_AlertManagerEvent in Hp.
    destruct (AlertManagerEvent_fields raw); congruence.
  - split; [|exact PrometheusAlert_fingerprint_default].
    intros raw e He. apply AlertManagerEvent_fields_defaults.
    apply parse_AlertManagerEvent_Ok, He.
Qed.

Lemma minimal_payload_fields :
  AlertManagerEvent_fields minimal_payload
  = Some (AlertManagerEvent.Build [] "http://alertmanager" "{}:{}" "4"
            None None None "robusta" "firing").
Proof.
  unfold AlertManagerEvent_fields, required, optional, with_default.
  repeat match goal with
         | |- context [minimal_payload !! ?k] =>
             let o := eval vm_compute in (minimal_payload !! k) in
             change (minimal_payload !! k) with o
         end.
  cbn. rewrite !str_validator_str. reflexivity.
Qed.

Lemma numeric_commonLabels_refused :
  parse_AlertManagerEvent numeric_commonLabels_payload = Raise ValidationError.
Proof.
  unfold parse_AlertManagerEvent, AlertManagerEvent_fields, required, optional,
    with_default.
  repeat match goal with
         | |- context [numeric_commonLabels_payload !! ?k] =>
             let o := eval vm_compute in (numeric_commonLabels_payload !! k) in
             change (numeric_commonLabels_payload !! k) with o
         end.
  cbn. rewrite !str_validator_str. cbn. rewrite dict_validator_int. reflexivity.
Qed.

Lemma numeric_commonLabels_required_fine :
  ~ required_bad numeric_commonLabels_payload.
Proof.
  assert (Hstr : forall k s,
    numeric_commonLabels_payload !! k = Some (VStr s) ->
    ~ missing_or_refused str_validator numeric_commonLabels_payload k).
  { intros k s Hk [Hm|(v & Hv & Hbad)].
    - unfold missing in Hm. congruence.
    - rewrite Hk in Hv. injection Hv as <-.
      destruct Hbad as [Hn|Hn]; [discriminate Hn|].
      rewrite str_validator_str in Hn. discriminate Hn. }
  intros [Htop|(l & v & Hl & _)].
  - destruct Htop as [Hb|[Hb|[Hb|[Hb|Hb]]]]; revert Hb; eapply Hstr; reflexivity.
  - vm_compute in Hl. discriminate Hl.
Qed.

(** C9: a payload without the key [alerts] is parsed as with the empty list
    of alerts: if it is parsed, its alerts are empty; it is parsed unless
    another field is refused; and the payload that has the five required
    fields and nothing else is parsed, with no alerts. *)
Theorem C9_alerts_absent :
  (forall raw e, raw !! "alerts" = None ->
     parse_AlertManagerEvent raw = Ok e -> AlertManagerEvent.alerts e = []) /\
  (forall raw, raw !! "alerts" = None ->
     ~ top_required_bad raw ->
     ~ refused_optional dict_validator raw "commonAnnotations" ->
     ~ refused_optional dict_validator raw "commonLabels" ->
     ~ refused_optional dict_validator raw "groupLabels" ->
     exists e, parse_AlertManagerEvent raw = Ok e /\ AlertManagerEvent.alerts e = []) /\
  minimal_payload !! "alerts" = None /\
  parse_AlertManagerEvent minimal_payload
  = Ok (AlertManagerEvent.Build [] "http://alertmanager" "{}:{}" "4"
          None None None "robusta" "firing").
Proof.
  assert (Hempty : forall raw e, raw !! "alerts" = None ->
            parse_AlertManagerEvent raw = Ok e -> AlertManagerEvent.alerts e = []).
  { intros raw e Habs He. apply parse_AlertManagerEvent_Ok in He.
    exact (proj1 (AlertManagerEvent_fields_defaults raw e He) Habs). }
  split; [exact Hempty|]. split; [|split; [reflexivity|]].
  - intros raw Habs Htop Hca Hcl Hgl.
    destruct (parse_AlertManagerEvent raw) as [e|err] eqn:Hp.
    + exists e. split; [reflexivity|]. exact (Hempty raw e Habs Hp).
    + exfalso.
      assert (Hbad : payload_bad raw).
      { apply AlertManagerEvent_fields_None. unfold parse_AlertManagerEvent in Hp.
        destruct (AlertManagerEvent_fields raw); [discriminate Hp|reflexivity]. }
      destruct Hbad as [Hb|[(v & Hv & _)|[Hb|[Hb|Hb]]]]; try contradiction.
      congruence.
  - apply parse_AlertManagerEvent_Ok, minimal_payload_fields.
Qed.

End ParseFacts.

(** The interface [Validators] has an instance: the one that admits a value
    only if it has the type of the field already. *)
Lemma Validators_inhabited : inhabited Validators.
Proof.
  constructor.
  refine {| datetime_validator := fun _ => None;
            str_validator := fun v => match v with VStr s => Some s | _ => None end;
            dict_validator := fun v => match v with VDict d => Some d | _ => None end |};
    reflexivity.
Qed.

(** C5, as the spec states it, fails: with every required field in place, a
    number for the optional commonLabels is refused, whichever values the
    validators coerce. *)
Lemma C5_counterexample :
  ~ (exists V : Validators,
       forall raw, @parse_AlertManagerEvent V raw = Raise ValidationError
                   <-> @required_bad V raw).
Proof.
  intros (V & Hiff).
  apply (@numeric_commonLabels_required_fine V).
  apply Hiff, numeric_commonLabels_refused.
Qed.

Lemma C5_witness :
  forall_validators (fun V =>
    @parse_AlertManagerEvent V numeric_commonLabels_payload = Raise ValidationError).
Proof.
  intros V. apply (proj1 (@C5_decode_error V)).
  right. right. right. left. exists (VInt 5).
  split; [reflexivity|]. split; [discriminate|]. apply dict_validator_int.
Defined.

Lemma C9_witness :
  forall_validators (fun V =>
    exists e, @parse_AlertManagerEvent V minimal_payload = Ok e
              /\ AlertManagerEvent.alerts e = []).
Proof.
  intros V. pose proof (@C9_alerts_absent V) as (Hempty & _ & Habs & Hparse).
  eexists. split; [exact Hparse|]. exact (Hempty _ _ Habs Hparse).
Defined.

(** ** More on the description: when it changes, and where it is cut *)

Section DescriptionMore.

Import Re.

Implicit Types (s p q r w : list ascii).

(** The matcher is a function of the text: a tag fixes what is left. *)
Lemma tagged_rest_unique q r r' : tagged q r -> tagged q r' -> r = r'.
Proof.
  intros H1 H2. apply match_here_tagged in H1, H2. congruence.
Qed.

Lemma tagged_snoc_newline q : tagged q [] <-> tagged (q ++ [newline]) [newline].
Proof.
  split.
  - intros (w & -> & Hw & _). exists w. split; [|split; [exact Hw|reflexivity]].
    rewrite <- !app_assoc. reflexivity.
  - intros (w & Hq & Hw & _). exists w. split; [|split; [exact Hw|reflexivity]].
    replace (prefix_chars ++ w ++ [close_bracket; newline])
      with ((prefix_chars ++ w ++ [close_bracket]) ++ [newline]) in Hq
      by (rewrite <- !app_assoc; reflexivity).
    apply app_inj_tail in Hq as [Hq _]. exact Hq.
Qed.

(** A tag of a text that ends in a newline leaves that newline. *)
Lemma tagged_in_newline_text s p q r :
  s ++ [newline] = p ++ q -> tagged q r ->
  r = [newline] /\ exists q', q = q' ++ [newline] /\ s = p ++ q' /\ tagged q' [].
Proof.
  intros Heq Ht.
  assert (Hq : q <> []) by (intros ->; exact (not_tagged_nil r Ht)).
  destruct (exists_last Hq) as (q' & c & ->).
  rewrite app_assoc in Heq. apply app_inj_tail in Heq as [Hs <-].
  destruct Ht as (w & Hq' & Hw & Hr).
  destruct (at_end_cases r Hr) as [->| ->].
  - exfalso.
    replace (prefix_chars ++ w ++ [close_bracket])
      with ((prefix_chars ++ w) ++ [close_bracket]) in Hq'
      by (rewrite <- !app_assoc; reflexivity).
    apply app_inj_tail in Hq' as [_ Hc]. discriminate Hc.
  - split; [reflexivity|]. exists q'. split; [reflexivity|]. split; [exact Hs|].
    apply tagged_snoc_newline. exists w. auto.
Qed.

Lemma sub_from_first_tag s p q r :
  first_tag s p q r -> sub_from LABELS_PATTERN 0 s = p ++ r.
Proof.
  intros (Hs & Ht & Hmin).
  destruct (sub_from_spec s) as [[Hu _]|(p' & q' & r' & (Hs' & Ht' & Hmin') & Hsub)].
  - destruct (Hu p q r Hs Ht).
  - pose proof (Hmin p' q' r' Hs' Ht') as H1.
    pose proof (Hmin' p q r Hs Ht) as H2.
    assert (Hlen : length p' = length p) by lia.
    rewrite Hs in Hs'. apply app_inj_1 in Hs' as [-> ->]; [|symmetry; exact Hlen].
    rewrite Hsub, (tagged_rest_unique _ _ _ Ht Ht'). reflexivity.
Qed.

(** Three strips do what two do. *)
Lemma sub_from_stable s :
  sub_from LABELS_PATTERN 0 (sub_from LABELS_PATTERN 0 (sub_from LABELS_PATTERN 0 s))
  = sub_from LABELS_PATTERN 0 (sub_from LABELS_PATTERN 0 s).
Proof.
  destruct (sub_from_spec s) as [[_ Hs]|(p & q & r & Hf & Hs)].
  - rewrite !Hs. reflexivity.
  - rewrite Hs.
    destruct (sub_from_spec (p ++ r)) as [[_ Hs1]|(p1 & q1 & r1 & Hf1 & Hs1)].
    + rewrite !Hs1. reflexivity.
    + rewrite Hs1. apply sub_from_untagged_id. intros p2 q2 r2 Heq Ht2.
      pose proof Hf1 as (Heq1 & Ht1 & _).
      destruct (residual_tag _ _ _ _ _ _ _ Hf Heq1 Ht1) as (_ & Hr1 & _).
      destruct (residual_tag _ _ _ _ _ _ _ Hf1 Heq Ht2) as (Hr1' & _).
      rewrite Hr1 in Hr1'. discriminate Hr1'.
Qed.

(** One newline behind a text that does not end in one changes nothing in
    what is removed. *)
Lemma sub_from_snoc_newline s :
  (forall s', s <> s' ++ [newline]) ->
  sub_from LABELS_PATTERN 0 (s ++ [newline])
  = sub_from LABELS_PATTERN 0 s ++ [newline].
Proof.
  intros Hend.
  destruct (sub_from_spec s) as [[Hu Hs]|(p & q & r & Hf & Hs)].
  - rewrite Hs. apply sub_from_untagged_id. intros p q r Heq Ht.
    destruct (tagged_in_newline_text s p q r Heq Ht) as (_ & q' & _ & Hs' & Ht').
    exact (Hu p q' [] Hs' Ht').
  - pose proof Hf as (Hsq & Ht & Hmin).
    assert (r = []) as ->.
    { destruct Ht as (w & Hq & _ & Hr).
      destruct (at_end_cases r Hr) as [->| ->]; [reflexivity|exfalso].
      apply (Hend (p ++ prefix_chars ++ w ++ [close_bracket])).
      rewrite Hsq, Hq, <- !app_assoc. reflexivity. }
    rewrite Hs, app_nil_r.
    rewrite (sub_from_first_tag (s ++ [newline]) p (q ++ [newline]) [newline]);
      [reflexivity|].
    split; [rewrite Hsq, <- app_assoc; reflexivity|].
    split; [apply tagged_snoc_newline, Ht|].
    intros p1 q1 r1 Heq Ht1.
    destruct (tagged_in_newline_text s p1 q1 r1 Heq Ht1) as (_ & q' & _ & Hs' & Ht').
    exact (Hmin p1 q' [] Hs' Ht').
Qed.

(** Where the prefix of the tag does not occur earlier, the tag that closes
    the text is the leftmost one. *)
Lemma first_tag_at_first_prefix p q r :
  tagged q r ->
  (forall a b, p ++ removelast prefix_chars <> a ++ prefix_chars ++ b) ->
  first_tag (p ++ q) p q r.
Proof.
  intros Ht Hno. split; [reflexivity|]. split; [exact Ht|].
  intros p1 q1 r1 Heq Ht1.
  destruct (Nat.le_gt_cases (length p) (length p1)) as [Hle|Hlt]; [exact Hle|exfalso].
  destruct Ht as (w & -> & _ & _). destruct Ht1 as (w1 & -> & _ & _).
  apply (f_equal (take (length p + 12))) in Heq.
  change prefix_chars with (removelast prefix_chars ++ ["["%char]) in Heq at 1.
  rewrite <- !app_assoc in Heq.
  rewrite (app_assoc p (removelast prefix_chars)) in Heq.
  rewrite take_app_length' in Heq
    by (rewrite length_app; reflexivity).
  rewrite (app_assoc p1 prefix_chars) in Heq.
  rewrite take_app_ge in Heq
    by (rewrite length_app; change (length prefix_chars) with 13; lia).
  rewrite <- app_assoc in Heq. exact (Hno _ _ Heq).
Qed.

End DescriptionMore.

Section DescriptionMoreStrings.

Lemma tag_split_chars (q r : list ascii) :
  tagged q r <->
  exists m t, q = list_ascii_of_string m ++ list_ascii_of_string t
              /\ r = list_ascii_of_string t /\ LabelsTag m /\ LastNewline t.
Proof.
  split.
  - intros (w & -> & Hw & Hr).
    exists (string_of_list_ascii (prefix_chars ++ w ++ [close_bracket])),
      (string_of_list_ascii r).
    rewrite !list_ascii_of_string_of_list_ascii, <- !app_assoc.
    split; [reflexivity|]. split; [reflexivity|].
    split; [apply tagged_LabelsTag, Hw|]. apply at_end_LastNewline, Hr.
  - intros (m & t & -> & -> & (w & -> & Hw) & Ht).
    exists (list_ascii_of_string w). rewrite !chars_app, <- !app_assoc.
    split; [reflexivity|]. split; [exact Hw|].
    destruct Ht as [-> | ->]; reflexivity.
Qed.

Lemma strip_labels_changes_iff (s : string) :
  strip_labels s <> s <->
  exists p m t, s = p +:+ m +:+ t /\ LabelsTag m /\ LastNewline t.
Proof.
  split.
  - intros Hne. destruct (strip_labels_shape s) as (p & m & t & Hs & _ & Hcase).
    destruct Hcase as [(_ & _ & Hid)|[Hm Ht]]; [contradiction|].
    exists p, m, t. auto.
  - intros (p & m & t & -> & Hm & Ht) Hid.
    assert (Hq : tagged (list_ascii_of_string m ++ list_ascii_of_string t)
                   (list_ascii_of_string t)).
    { apply tag_split_chars. exists m, t. auto. }
    apply (f_equal list_ascii_of_string) in Hid.
    rewrite chars_strip_labels, !chars_app in Hid.
    destruct (sub_from_spec (list_ascii_of_string p ++ list_ascii_of_string m
                             ++ list_ascii_of_string t))
      as [[Hu _]|(p0 & q0 & r0 & (Hs0 & Ht0 & _) & Hsub)].
    + exact (Hu _ _ _ eq_refl Hq).
    + rewrite Hsub, Hs0 in Hid. apply app_inv_head in Hid. subst q0.
      apply tagged_length in Ht0. lia.
Qed.

End DescriptionMoreStrings.

(** X1: stripping stabilises after two applications: a third strip of any
    description returns what the second one returned, although the second
    may differ from the first. *)
Theorem X1_strip_stable_after_two (s : string) :
  strip_labels (strip_labels (strip_labels s)) = strip_labels (strip_labels s).
Proof.
  apply chars_inj. rewrite !chars_strip_labels. apply sub_from_stable.
Qed.

(** X2: the description is changed exactly when some tag
    [LABELS = map[...]] within one line is followed by nothing but at most
    one last newline; in particular a description in which [LABELS = map[]
    does not occur is returned as it is. *)
Theorem X2_strip_changes_iff :
  (forall s, strip_labels s <> s <->
     exists p m t, s = p +:+ m +:+ t /\ LabelsTag m /\ LastNewline t) /\
  (forall s, ~ occurs LABELS_PREFIX s -> strip_labels s = s).
Proof.
  split; [exact strip_labels_changes_iff|].
  intros s Hno.
  destruct (String.string_dec (strip_labels s) s) as [Heq|Hne]; [exact Heq|exfalso].
  apply strip_labels_changes_iff in Hne as (p & m & t & -> & (w & -> & _) & _).
  apply Hno. exists p, (w +:+ "]" +:+ t).
  apply chars_inj. rewrite !chars_app, <- !app_assoc. reflexivity.
Qed.

Lemma X2_witness : strip_labels "CPU at 97% on node-1" = "CPU at 97% on node-1".
Proof.
  apply (proj2 X2_strip_changes_iff).
  intros Hocc. apply (occurs_In "["%char) in Hocc.
  - cbn in Hocc. repeat (destruct Hocc as [Hocc|Hocc]; [discriminate Hocc|]).
    exact Hocc.
  - cbn. tauto.
Defined.

(** X3: when [LABELS = map[] does not start anywhere before a tag that ends
    the description (at most one last newline behind it), the description is
    cut exactly at that tag: all of the text before it is kept, newlines
    included, and the last newline stays. *)
Theorem X3_strip_cut_at_first_tag (p m t : string) :
  ~ occurs LABELS_PREFIX (p +:+ "LABELS = map") ->
  LabelsTag m -> LastNewline t ->
  strip_labels (p +:+ m +:+ t) = p +:+ t.
Proof.
  intros Hno Hm Ht. apply chars_inj.
  rewrite chars_strip_labels, !chars_app.
  apply (sub_from_first_tag _ _
           (list_ascii_of_string m ++ list_ascii_of_string t)
           (list_ascii_of_string t)),
    first_tag_at_first_prefix.
  - apply tag_split_chars. exists m, t. auto.
  - intros a b Heq. apply Hno. apply (occurs_chars _ _ a b).
    rewrite chars_app. exact Heq.
Qed.

Lemma X3_witness :
  strip_labels ("line one" +:+ NL +:+ "line two LABELS = map[job:api]" +:+ NL)
  = "line one" +:+ NL +:+ "line two " +:+ NL.
Proof.
  apply (X3_strip_cut_at_first_tag ("line one" +:+ NL +:+ "line two ")
           "LABELS = map[job:api]" NL).
  - intros Hocc. apply (occurs_In "["%char) in Hocc.
    + cbn in Hocc. repeat (destruct Hocc as [Hocc|Hocc]; [discriminate Hocc|]).
      exact Hocc.
    + cbn. tauto.
  - exists "job:api". split; [reflexivity|]. repeat constructor.
  - right. reflexivity.
Defined.

(** X4: one newline appended to a description that does not end in a newline
    is carried through: the result is the stripped description followed by
    that newline. *)
Theorem X4_strip_trailing_newline (s : string) :
  (forall s', s <> s' +:+ NL) ->
  strip_labels (s +:+ NL) = strip_labels s +:+ NL.
Proof.
  intros Hend. apply chars_inj.
  rewrite chars_app, !chars_strip_labels, chars_app.
  apply sub_from_snoc_newline. intros s' Heq. apply (Hend (string_of_list_ascii s')).
  apply chars_inj. rewrite chars_app, list_ascii_of_string_of_list_ascii. exact Heq.
Qed.

Lemma X4_witness :
  strip_labels ("Pod crashed LABELS = map[severity:critical]" +:+ NL)
  = strip_labels "Pod crashed LABELS = map[severity:critical]" +:+ NL.
Proof.
  apply X4_strip_trailing_newline.
  intros s' Heq.
  assert (Hocc : occurs NL "Pod crashed LABELS = map[severity:critical]").
  { exists s', "". rewrite Heq. apply chars_inj. rewrite !chars_app. reflexivity. }
  apply (occurs_In Re.newline) in Hocc; [|left; reflexivity].
  cbn in Hocc. repeat (destruct Hocc as [Hocc|Hocc]; [discriminate Hocc|]).
  exact Hocc.
Defined.

(** ** More on severity, subject and finding *)

Section FindingMore.

Lemma severityOf_cases s :
  (severityOf (Some s) = HIGH <-> s = "critical") /\
  (severityOf (Some s) = MEDIUM <-> s = "error") /\
  (severityOf (Some s) = LOW <-> s = "warning") /\
  (severityOf (Some s) = INFO <-> s <> "critical" /\ s <> "error" /\ s <> "warning").
Proof.
  unfold severityOf.
  destruct (String.eqb_spec s "critical") as [->|H1].
  { repeat split; try discriminate; try reflexivity; intros; tauto. }
  destruct (String.eqb_spec s "error") as [->|H2].
  { repeat split; try discriminate; try reflexivity; intros; tauto. }
  destruct (String.eqb_spec s "warning") as [->|H3].
  { repeat split; try discriminate; try reflexivity; intros; tauto. }
  repeat split; try discriminate; try contradiction; auto.
Qed.

(** X5: the severity table read backwards: the result is HIGH only for the
    string "critical", MEDIUM only for "error", LOW only for "warning"; INFO
    is the result for every other hashable key, and the lookup raises
    TypeError exactly on an unhashable key. *)
Theorem X5_severity_inverse (v : PyVal) :
  (severity_get v INFO = Ok HIGH <-> v = VStr "critical") /\
  (severity_get v INFO = Ok MEDIUM <-> v = VStr "error") /\
  (severity_get v INFO = Ok LOW <-> v = VStr "warning") /\
  (severity_get v INFO = Ok INFO <->
     hashable v = true /\ v <> VStr "critical" /\ v <> VStr "error"
     /\ v <> VStr "warning") /\
  (severity_get v INFO = Raise TypeError <-> hashable v = false).
Proof.
  destruct v as [| b | n | f | s | l | d];
    try solve [cbn; intuition congruence].
  rewrite severity_get_str.
  destruct (severityOf_cases s) as (Hh & Hm & Hl & Hi).
  split; [|split; [|split; [|split]]].
  - split; [intros [= Hs]; f_equal; apply Hh, Hs|intros [= ->]; reflexivity].
  - split; [intros [= Hs]; f_equal; apply Hm, Hs|intros [= ->]; reflexivity].
  - split; [intros [= Hs]; f_equal; apply Hl, Hs|intros [= ->]; reflexivity].
  - split.
    + intros [= Hs]. apply Hi in Hs as (H1 & H2 & H3).
      repeat split; congruence.
    + intros (_ & H1 & H2 & H3). f_equal. apply Hi. repeat split; congruence.
  - split; discriminate.
Qed.




Context `{Builtins}.

Lemma get_description_raise self a e :
  alert self = Some a -> get_description self = Raise e ->
  e = TypeError /\ ~ description_ok a.
Proof.
  intros Ha He. split.
  - revert He. unfold get_description, the_alert, dict_get, subscript.
    rewrite Ha. cbn.
    destruct (PrometheusAlert.annotations a !! "description") as [v|]; cbn.
    + destruct (truthy v); [|discriminate]. cbn.
      destruct v; cbn; congruence.
    + discriminate.
  - intros Hok. apply (get_description_ok_iff self a Ha) in Hok as [d Hd].
    congruence.
Qed.

Lemma get_severity_raise self a e :
  alert self = Some a -> get_severity self = Raise e ->
  e = TypeError /\ ~ severity_ok a.
Proof.
  intros Ha He. split.
  - rewrite (get_severity_eq self a Ha) in He. unfold severity_get in He.
    destruct (hashable _); [|congruence].
    destruct (dict_get _ _); discriminate He.
  - intros Hok. apply (get_severity_ok_iff self a Ha) in Hok as [d Hd].
    congruence.
Qed.


(** X10: [get_title] returns a string, as its signature says, whenever the
    "alertname" label is a string or absent, whatever the annotations
    hold. *)
Theorem X10_title_is_str (self : PrometheusKubernetesAlert.t) (a : PrometheusAlert.t) :
  alert self = Some a ->
  str_or_absent (PrometheusAlert.labels a !! "alertname") ->
  exists s, get_title self = Ok (VStr s).
Proof.
  intros Ha Hl.
  destruct (truthy (dict_get (PrometheusAlert.annotations a) "summary")) eqn:Ht.
  - unfold dict_get in Ht.
    destruct (PrometheusAlert.annotations a !! "summary") as [v|] eqn:Hs;
      [|discriminate Ht].
    eexists. exact (get_title_summary self a v Ha Hs Ht).
  - rewrite (get_title_fallback self a Ha Ht). unfold dict_get_or.
    destruct Hl as [-> | [s ->]]; cbn; eauto.
Qed.

End FindingMore.


Lemma X10_witness :
  forall_builtins (fun B =>
    exists s, @get_title B (sample_event diskfull_alert None None) = Ok (VStr s)).
Proof.
  intros B.
  exact (@X10_title_is_str B (sample_event diskfull_alert None None) diskfull_alert
           eq_refl (or_intror (ex_intro _ "HighCPU" eq_refl))).
Defined.

(** ** More on decoding *)

Section ParseMore.

Context `{Validators}.


Lemma required_dict raw name d :
  raw !! name = Some (VDict d) -> required dict_validator raw name = Some d.
Proof. intros Hl. unfold required. rewrite Hl. cbn. apply dict_validator_dict. Qed.



Lemma optional_null {A : Type} (validator : PyVal -> option A) raw name dflt :
  raw !! name = Some VNone -> optional validator raw name dflt = Some None.
Proof. intros Hl. unfold optional. rewrite Hl. reflexivity. Qed.

Lemma required_null {A : Type} (validator : PyVal -> option A) raw name :
  raw !! name = Some VNone -> required validator raw name = None.
Proof. intros Hl. unfold required. rewrite Hl. reflexivity. Qed.

(** The parsed payload, field by field. *)
Lemma AlertManagerEvent_fields_inv raw e :
  AlertManagerEvent_fields raw = Some e ->
  with_default alerts_validator raw "alerts" [] = Some (AlertManagerEvent.alerts e)
  /\ required str_validator raw "externalURL" = Some (AlertManagerEvent.externalURL e)
  /\ required str_validator raw "groupKey" = Some (AlertManagerEvent.groupKey e)
  /\ required str_validator raw "version" = Some (AlertManagerEvent.version e)
  /\ optional dict_validator raw "commonAnnotations" None
     = Some (AlertManagerEvent.commonAnnotations e)
  /\ optional dict_validator raw "commonLabels" None
     = Some (AlertManagerEvent.commonLabels e)
  /\ optional dict_validator raw "groupLabels" None
     = Some (AlertManagerEvent.groupLabels e)
  /\ required str_validator raw "receiver" = Some (AlertManagerEvent.receiver e)
  /\ required str_validator raw "status" = Some (AlertManagerEvent.status e).
Proof.
  unfold AlertManagerEvent_fields. intros He.
  destruct (with_default alerts_validator raw "alerts" []); cbn in He; [|discriminate He].
  destruct (required str_validator raw "externalURL"); cbn in He; [|discriminate He].
  destruct (required str_validator raw "groupKey"); cbn in He; [|discriminate He].
  destruct (required str_validator raw "version"); cbn in He; [|discriminate He].
  destruct (optional dict_validator raw "commonAnnotations" None); cbn in He;
    [|discriminate He].
  destruct (optional dict_validator raw "commonLabels" None); cbn in He;
    [|discriminate He].
  destruct (optional dict_validator raw "groupLabels" None); cbn in He;
    [|discriminate He].
  destruct (required str_validator raw "receiver"); cbn in He; [|discriminate He].
  destruct (required str_validator raw "status"); cbn in He; [|discriminate He].
  injection He as <-. cbn. repeat split; reflexivity.
Qed.

(** The parsed alert, field by field. *)
Lemma PrometheusAlert_fields_inv d a :
  PrometheusAlert_fields d = Some a ->
  required datetime_validator d "endsAt" = Some (PrometheusAlert.endsAt a)
  /\ required str_validator d "generatorURL" = Some (PrometheusAlert.generatorURL a)
  /\ required datetime_validator d "startsAt" = Some (PrometheusAlert.startsAt a)
  /\ optional str_validator d "fingerprint" (Some "")
     = Some (PrometheusAlert.fingerprint a)
  /\ required str_validator d "status" = Some (PrometheusAlert.status a)
  /\ required dict_validator d "labels" = Some (PrometheusAlert.labels a)
  /\ required dict_validator d "annotations" = Some (PrometheusAlert.annotations a).
Proof.
  unfold PrometheusAlert_fields. intros Ha.
  destruct (required datetime_validator d "endsAt"); cbn in Ha; [|discriminate Ha].
  destruct (required str_validator d "generatorURL"); cbn in Ha; [|discriminate Ha].
  destruct (required datetime_validator d "startsAt"); cbn in Ha; [|discriminate Ha].
  destruct (optional str_validator d "fingerprint" (Some "")); cbn in Ha;
    [|discriminate Ha].
  destruct (required str_validator d "status"); cbn in Ha; [|discriminate Ha].
  destruct (required dict_validator d "labels"); cbn in Ha; [|discriminate Ha].
  destruct (required dict_validator d "annotations"); cbn in Ha; [|discriminate Ha].
  injection Ha as <-. cbn. repeat split; reflexivity.
Qed.

Lemma parse_PrometheusAlert_Ok d a :
  parse_PrometheusAlert d = Ok a <-> PrometheusAlert_fields d = Some a.
Proof.
  unfold parse_PrometheusAlert. destruct (PrometheusAlert_fields d); split; congruence.
Qed.

Lemma parse_PrometheusAlert_Raise d :
  parse_PrometheusAlert d = Raise ValidationError <-> PrometheusAlert_fields d = None.
Proof.
  unfold parse_PrometheusAlert. destruct (PrometheusAlert_fields d); split; congruence.
Qed.


(** X12: an explicit null is taken for the [Optional] fields only, where it
    gives [None]: the fingerprint of a parsed alert is null when the payload
    says so, and so are the three common dictionaries; null for any other
    field of the payload or of an alert is refused. *)
Theorem X12_null_fields :
  (forall d a, parse_PrometheusAlert d = Ok a -> d !! "fingerprint" = Some VNone ->
     PrometheusAlert.fingerprint a = None) /\
  (forall raw e, parse_AlertManagerEvent raw = Ok e ->
     (raw !! "commonAnnotations" = Some VNone -> AlertManagerEvent.commonAnnotations e = None)
     /\ (raw !! "commonLabels" = Some VNone -> AlertManagerEvent.commonLabels e = None)
     /\ (raw !! "groupLabels" = Some VNone -> AlertManagerEvent.groupLabels e = None)) /\
  (forall raw name,
     name ∈ ["alerts"; "externalURL"; "groupKey"; "version"; "receiver"; "status"] ->
     raw !! name = Some VNone ->
     parse_AlertManagerEvent raw = Raise ValidationError) /\
  (forall d name,
     name ∈ ["endsAt"; "generatorURL"; "startsAt"; "status"; "labels"; "annotations"] ->
     d !! name = Some VNone ->
     parse_PrometheusAlert d = Raise ValidationError).
Proof.
  split; [|split; [|split]].
  - intros d a Ha Hn. apply parse_PrometheusAlert_Ok, PrometheusAlert_fields_inv in Ha
      as (_ & _ & _ & Hf & _).
    rewrite (optional_null _ _ _ _ Hn) in Hf. congruence.
  - intros raw e He. apply parse_AlertManagerEvent_Ok, AlertManagerEvent_fields_inv in He
      as (_ & _ & _ & _ & Hca & Hcl & Hgl & _).
    repeat split; intros Hn.
    + rewrite (optional_null _ _ _ _ Hn) in Hca. congruence.
    + rewrite (optional_null _ _ _ _ Hn) in Hcl. congruence.
    + rewrite (optional_null _ _ _ _ Hn) in Hgl. congruence.
  - intros raw name Hin Hn. apply parse_AlertManagerEvent_Raise.
    assert (Hbad : forall A (validator : PyVal -> option A),
              missing_or_refused validator raw name).
    { intros A validator. right. exists VNone. auto. }
    unfold payload_bad, top_required_bad.
    rewrite !elem_of_cons in Hin.
    destruct Hin as [->|[->|[->|[->|[->|[->|Hin]]]]]]; [|auto 10..|inversion Hin].
    right. left. exists VNone. auto.
  - intros d name Hin Hn. apply parse_PrometheusAlert_Raise, PrometheusAlert_fields_None.
    assert (Hbad : forall A (validator : PyVal -> option A),
              missing_or_refused validator d name).
    { intros A validator. right. exists VNone. auto. }
    left. unfold alert_required_bad. rewrite !elem_of_cons in Hin.
    destruct Hin as [->|[->|[->|[->|[->|[->|Hin]]]]]]; [auto 10..|inversion Hin].
Qed.


Lemma lookup_insert_other (raw : gmap string PyVal) k v name :
  k <> name -> <[k := v]> raw !! name = raw !! name.
Proof. intros Hne. apply lookup_insert_ne, Hne. Qed.

(** X14: keys that are no field of the model do not matter: adding or
    changing such a key in the payload, or in an alert, leaves the result of
    decoding as it is. *)
Theorem X14_unknown_keys_ignored :
  (forall raw k v, k ∉ AlertManagerEvent_field_names ->
     parse_AlertManagerEvent (<[k := v]> raw) = parse_AlertManagerEvent raw) /\
  (forall d k v, k ∉ PrometheusAlert_field_names ->
     parse_PrometheusAlert (<[k := v]> d) = parse_PrometheusAlert d).
Proof.
  split.
  - intros raw k v Hk. unfold AlertManagerEvent_field_names in Hk.
    rewrite !not_elem_of_cons in Hk.
    destruct Hk as (H1 & H2 & H3 & H4 & H5 & H6 & H7 & H8 & H9 & _).
    unfold parse_AlertManagerEvent, AlertManagerEvent_fields, required, optional,
      with_default.
    rewrite !lookup_insert_other by assumption. reflexivity.
  - intros d k v Hk. unfold PrometheusAlert_field_names in Hk.
    rewrite !not_elem_of_cons in Hk.
    destruct Hk as (H1 & H2 & H3 & H4 & H5 & H6 & H7 & _).
    unfold parse_PrometheusAlert, PrometheusAlert_fields, required, optional.
    rewrite !lookup_insert_other by assumption. reflexivity.
Qed.

End ParseMore.

(** ** From the payload to the finding *)

Section EndToEnd.

Context `{Validators} `{Builtins}.

Lemma all_strings_str_or_absent (d : gmap string PyVal) k :
  all_strings d -> str_or_absent (d !! k).
Proof.
  intros Hd. destruct (d !! k) as [v|] eqn:Hk; [|left; reflexivity].
  right. destruct (Hd k v Hk) as [s ->]. eauto.
Qed.

Lemma create_default_finding_parts self f :
  create_default_finding self = Ok f ->
  get_title self = Ok (Finding.title f)
  /\ get_description self = Ok (Finding.description f)
  /\ get_severity self = Ok (Finding.severity f)
  /\ Finding.subject f = __get_alert_subject self.
Proof.
  unfold create_default_finding.
  destruct (get_title self) as [t|e]; [|discriminate]. cbn.
  destruct (get_description self) as [d|e]; [|discriminate]. cbn.
  destruct (get_severity self) as [sev|e]; [|discriminate]. cbn.
  intros [= <-]. cbn. auto.
Qed.

End EndToEnd.

Lemma firing_alert_parsed :
  @parse_PrometheusAlert example_validators firing_alert_payload
  = Ok (PrometheusAlert.Build epoch "http://prometheus/graph"
          {| epoch_microseconds := 1700000000000000; utcoffset := Some 0%Z |}
          (Some "") "firing" firing_labels firing_annotations).
Proof. reflexivity. Qed.

Lemma all_strings_firing_labels : all_strings firing_labels.
Proof.
  intros k v Hk. unfold firing_labels in Hk.
  apply lookup_insert_Some in Hk as [[_ <-]|[_ Hk]]; [eauto|].
  apply lookup_singleton_Some in Hk as [_ <-]. eauto.
Qed.

Lemma all_strings_firing_annotations : all_strings firing_annotations.
Proof.
  intros k v Hk. unfold firing_annotations in Hk.
  apply lookup_insert_Some in Hk as [[_ <-]|[_ Hk]]; [eauto|].
  apply lookup_singleton_Some in Hk as [_ <-]. eauto.
Qed.


Lemma X12_witness :
  (exists a, @parse_PrometheusAlert example_validators null_fingerprint_payload = Ok a
             /\ PrometheusAlert.fingerprint a = None)
  /\ forall_validators (fun V =>
       @parse_AlertManagerEvent V (<[ "status" := VNone ]> minimal_payload)
       = Raise ValidationError).
Proof.
  split.
  - eexists. split; [reflexivity|].
    exact (proj1 (@X12_null_fields example_validators) null_fingerprint_payload _
             eq_refl eq_refl).
  - intros V.
    apply (proj1 (proj2 (proj2 (@X12_null_fields V))) _ "status"); [|reflexivity].
    rewrite !elem_of_cons. tauto.
Defined.


Lemma X14_witness :
  forall_validators (fun V =>
    @parse_AlertManagerEvent V (<[ "truncatedAlerts" := VInt 0 ]> minimal_payload)
    = @parse_AlertManagerEvent V minimal_payload).
Proof.
  intros V. apply (proj1 (@X14_unknown_keys_ignored V)).
  unfold AlertManagerEvent_field_names. rewrite !not_elem_of_cons.
  repeat split; try discriminate. apply not_elem_of_nil.
Defined.


(** ** The bash enrichers *)

Section BashFacts.

Import Bash.

Context `{Reporting} `{Cluster}.

(** X16: which effects the two actions have. [pod_bash_enricher] runs a
    command exactly when the event has its pod; [node_bash_enricher] exactly
    when the event has its node and the node its metadata, and raises
    AttributeError before any command when the metadata is missing. The
    only command run is the one of the parameters. An error is logged
    exactly when the object is absent, and then the action returns normally;
    an enrichment is attached exactly when the command returned; an
    exception of the command is raised by the action. *)
Theorem X16_enrichers_guard (params : BashParams) :
  (forall event,
     (commands_run (pod_bash_enricher event params).1 <> [] <-> is_Some (get_pod event))
     /\ (commands_run (pod_bash_enricher event params).1 = []
         \/ commands_run (pod_bash_enricher event params).1 = [bash_command params])
     /\ (errors_logged (pod_bash_enricher event params).1 <> [] <-> get_pod event = None)
     /\ (enrichments (pod_bash_enricher event params).1 <> [] <->
           exists pod output, get_pod event = Some pod
             /\ pod_exec pod (bash_command params) = Ok output)
     /\ (forall e, (pod_bash_enricher event params).2 = Raise e <->
           exists pod, get_pod event = Some pod
             /\ pod_exec pod (bash_command params) = Raise e)) /\
  (forall event,
     (commands_run (node_bash_enricher event params).1 <> [] <->
        exists node, get_node event = Some node /\ is_Some (Hikaru.metadata node))
     /\ (commands_run (node_bash_enricher event params).1 = []
         \/ commands_run (node_bash_enricher event params).1 = [bash_command params])
     /\ (errors_logged (node_bash_enricher event params).1 <> [] <-> get_node event = None)
     /\ (enrichments (node_bash_enricher event params).1 <> [] <->
           exists node m output, get_node event = Some node
             /\ Hikaru.metadata node = Some m
             /\ exec_in_debugger_pod "node-bash-pod" (K8s.name m) (bash_command params)
                = Ok output)
     /\ (forall e, (node_bash_enricher event params).2 = Raise e <->
           exists node, get_node event = Some node
             /\ ((Hikaru.metadata node = None /\ e = AttributeError)
                 \/ exists m, Hikaru.metadata node = Some m
                      /\ exec_in_debugger_pod "node-bash-pod" (K8s.name m)
                           (bash_command params) = Raise e))).
Proof.
  split; intros event.
  - unfold pod_bash_enricher. destruct (get_pod event) as [pod|]; cbn.
    + destruct (pod_exec pod (bash_command params)) as [out|e0] eqn:Hx; cbn.
      * split; [split; [eauto|discriminate]|]. split; [auto|].
        split; [split; [intros Hn; destruct (Hn eq_refl)|discriminate]|].
        split; [split; [eauto|discriminate]|].
        intros e. split; [discriminate|].
        intros (pod' & [= <-] & Hr). congruence.
      * split; [split; [eauto|discriminate]|]. split; [auto|].
        split; [split; [intros Hn; destruct (Hn eq_refl)|discriminate]|].
        split; [split; [intros Hn; destruct (Hn eq_refl)|]|].
        { intros (pod' & out & [= <-] & Ho). congruence. }
        intros e. split; [intros [= <-]; eauto|].
        intros (pod' & [= <-] & Hr). congruence.
    + split; [split; [intros Hn; destruct (Hn eq_refl)|intros [? Hs]; discriminate Hs]|].
      split; [auto|]. split; [split; [reflexivity|discriminate]|].
      split; [split; [intros Hn; destruct (Hn eq_refl)|]|].
      { intros (pod & out & Hp & _). discriminate Hp. }
      intros e. split; [discriminate|]. intros (pod & Hp & _). discriminate Hp.
  - unfold node_bash_enricher. destruct (get_node event) as [node|]; cbn.
    + unfold Hikaru.the_metadata. destruct (Hikaru.metadata node) as [m|] eqn:Hm; cbn.
      * destruct (exec_in_debugger_pod "node-bash-pod" (K8s.name m)
                    (bash_command params)) as [out|e0] eqn:Hx; cbn.
        -- split; [split; [intros _; exists node; rewrite Hm; eauto|discriminate]|].
           split; [auto|].
           split; [split; [intros Hn; destruct (Hn eq_refl)|discriminate]|].
           split; [split; [intros _; exists node, m, out; auto|discriminate]|].
           intros e. split; [discriminate|].
           intros (node' & [= <-] & [[Hn _]|(m' & Hm' & Hr)]); congruence.
        -- split; [split; [intros _; exists node; rewrite Hm; eauto|discriminate]|].
           split; [auto|].
           split; [split; [intros Hn; destruct (Hn eq_refl)|discriminate]|].
           split; [split; [intros Hn; destruct (Hn eq_refl)|]|].
           { intros (node' & m' & out & [= <-] & Hm' & Ho). congruence. }
           intros e. split.
           ++ intros [= <-]. exists node. split; [reflexivity|]. right. eauto.
           ++ intros (node' & [= <-] & [[Hn _]|(m' & Hm' & Hr)]); congruence.
      * split; [split; [intros Hn; destruct (Hn eq_refl)|]|].
        { intros (node' & [= <-] & [m Hs]). congruence. }
        split; [auto|].
        split; [split; [intros Hn; destruct (Hn eq_refl)|discriminate]|].
        split; [split; [intros Hn; destruct (Hn eq_refl)|]|].
        { intros (node' & m & out & [= <-] & Hm' & _). congruence. }
        intros e. split.
        -- intros [= <-]. exists node. split; [reflexivity|]. left. auto.
        -- intros (node' & [= <-] & [[_ ->]|(m' & Hm' & _)]); congruence.
    + split; [split; [intros Hn; destruct (Hn eq_refl)|]|].
      { intros (node & Hn & _). discriminate Hn. }
      split; [auto|]. split; [split; [reflexivity|discriminate]|].
      split; [split; [intros Hn; destruct (Hn eq_refl)|]|].
      { intros (node & m & out & Hn & _). discriminate Hn. }
      intros e. split; [discriminate|]. intros (node & Hn & _). discriminate Hn.
Qed.

End BashFacts.

Lemma X16_witness :
  Bash.commands_run
    (@Bash.pod_bash_enricher example_reporting example_cluster pod_event uptime).1 <> []
  /\ (@Bash.node_bash_enricher example_reporting example_cluster
        {| Bash.get_node := Some bare_object |} uptime).2 = Raise AttributeError
  /\ Bash.commands_run
       (@Bash.node_bash_enricher example_reporting example_cluster node_event uptime).1
     <> [].
Proof.
  pose proof (@X16_enrichers_guard example_reporting example_cluster uptime) as [Hpod Hnode].
  split; [|split].
  - destruct (Hpod pod_event) as ((_ & Hrun) & _). apply Hrun. eexists. reflexivity.
  - destruct (Hnode {| Bash.get_node := Some bare_object |}) as (_ & _ & _ & _ & Hr).
    apply Hr. exists bare_object. split; [reflexivity|]. left. auto.
  - destruct (Hnode node_event) as ((_ & Hrun) & _).
    apply Hrun. eexists. split; [reflexivity|]. eexists. reflexivity.
Defined.

(** ** The finding of an event whose references may lack metadata *)

Section HikaruFacts.

Context `{Builtins}.

(** The subject is read exactly when the first present reference has its
    metadata; the only exception is AttributeError. *)
Lemma hikaru_subject_cases (self : Hikaru.Event) :
  (Hikaru.subject_ok self /\ exists s, Hikaru.__get_alert_subject self = Ok s)
  \/ (~ Hikaru.subject_ok self
      /\ Hikaru.__get_alert_subject self = Raise AttributeError).
Proof.
  unfold Hikaru.subject_ok, Hikaru.first_reference, Hikaru.__get_alert_subject,
    Hikaru.the_metadata.
  destruct (Hikaru.pod self) as [[[m|]]|]; cbn.
  { left. split; [intros r [= <-]; cbn; eauto|eauto]. }
  { right. split; [|reflexivity]. intros Hok.
    destruct (Hok _ eq_refl) as [? Hm]. discriminate Hm. }
  destruct (Hikaru.job self) as [[[m|]]|]; cbn.
  { left. split; [intros r [= <-]; cbn; eauto|eauto]. }
  { right. split; [|reflexivity]. intros Hok.
    destruct (Hok _ eq_refl) as [? Hm]. discriminate Hm. }
  destruct (Hikaru.deployment self) as [[[m|]]|]; cbn.
  { left. split; [intros r [= <-]; cbn; eauto|eauto]. }
  { right. split; [|reflexivity]. intros Hok.
    destruct (Hok _ eq_refl) as [? Hm]. discriminate Hm. }
  destruct (Hikaru.daemonset self) as [[[m|]]|]; cbn.
  { left. split; [intros r [= <-]; cbn; eauto|eauto]. }
  { right. split; [|reflexivity]. intros Hok.
    destruct (Hok _ eq_refl) as [? Hm]. discriminate Hm. }
  destruct (Hikaru.node self) as [[[m|]]|]; cbn.
  { left. split; [intros r [= <-]; cbn; eauto|eauto]. }
  { right. split; [|reflexivity]. intros Hok.
    destruct (Hok _ eq_refl) as [? Hm]. discriminate Hm. }
  left. split; [intros r Hr; discriminate Hr|eauto].
Qed.

Lemma hikaru_subject_ok_iff (self : Hikaru.Event) :
  (exists s, Hikaru.__get_alert_subject self = Ok s) <-> Hikaru.subject_ok self.
Proof.
  destruct (hikaru_subject_cases self) as [[Hok Hs]|[Hno Hr]].
  - split; auto.
  - split; [intros [s Hs]; congruence|contradiction].
Qed.

Lemma hikaru_subject_raise_iff (self : Hikaru.Event) :
  Hikaru.__get_alert_subject self = Raise AttributeError <-> ~ Hikaru.subject_ok self.
Proof.
  destruct (hikaru_subject_cases self) as [[Hok [s Hs]]|[Hno Hr]].
  - split; [congruence|contradiction].
  - split; auto.
Qed.

(** On an event all of whose references have their metadata, the subject and
    the finding are those of the methods above. *)
Lemma hikaru_subject_of_resolved (self : PrometheusKubernetesAlert.t) :
  Hikaru.__get_alert_subject (Hikaru.of_resolved self) = Ok (__get_alert_subject self).
Proof.
  unfold Hikaru.__get_alert_subject, __get_alert_subject, Hikaru.of_resolved. cbn.
  destruct (pod self), (job self), (deployment self), (daemonset self),
    (node self); reflexivity.
Qed.

Lemma hikaru_finding_of_resolved (self : PrometheusKubernetesAlert.t) :
  Hikaru.create_default_finding (Hikaru.of_resolved self) = create_default_finding self.
Proof.
  unfold Hikaru.create_default_finding. rewrite hikaru_subject_of_resolved.
  reflexivity.
Qed.

(** The finding, from the subject and the finding of the alert alone. *)
Lemma hikaru_finding_unfold (self : Hikaru.Event) :
  Hikaru.create_default_finding self
  = match Hikaru.__get_alert_subject self with
    | Ok s =>
        match create_default_finding (Hikaru.alert_part self) with
        | Ok f =>
            Ok (Finding.Build (Finding.title f) (Finding.description f) PROMETHEUS
                  (Hikaru.alert_name self) (Finding.severity f) s)
        | Raise e => Raise e
        end
    | Raise e => Raise e
    end.
Proof.
  unfold Hikaru.create_default_finding, create_default_finding.
  destruct (Hikaru.__get_alert_subject self) as [s|e]; [|reflexivity]. cbn.
  destruct (get_title (Hikaru.alert_part self)) as [t|e]; [|reflexivity]. cbn.
  destruct (get_description (Hikaru.alert_part self)) as [d|e]; [|reflexivity]. cbn.
  destruct (get_severity (Hikaru.alert_part self)) as [sev|e]; reflexivity.
Qed.

(** The exceptions of the finding of the alert alone. *)
Lemma create_default_finding_raise (self : PrometheusKubernetesAlert.t) :
  (create_default_finding self = Raise AttributeError <-> alert self = None)
  /\ (create_default_finding self = Raise TypeError <->
        exists a, alert self = Some a /\ (~ description_ok a \/ ~ severity_ok a))
  /\ (forall e, create_default_finding self = Raise e ->
        e = AttributeError \/ e = TypeError).
Proof.
  unfold create_default_finding.
  destruct (alert self) as [a|] eqn:Ha.
  - destruct (get_title_total self a Ha) as [t ->]. cbn.
    destruct (get_description self) as [d|e'] eqn:Hd; cbn.
    + assert (Hdok : description_ok a)
        by (apply (get_description_ok_iff self a Ha); eauto).
      destruct (get_severity self) as [sev|e''] eqn:Hs; cbn.
      * assert (Hsok : severity_ok a)
          by (apply (get_severity_ok_iff self a Ha); eauto).
        split; [split; discriminate|].
        split; [|discriminate]. split; [discriminate|].
        intros (a' & [= <-] & [Hn|Hn]); contradiction.
      * destruct (get_severity_raise self a e'' Ha Hs) as [-> Hno].
        split; [split; discriminate|]. split.
        -- split; [|reflexivity]. intros _. exists a. split; [reflexivity|].
           right. exact Hno.
        -- intros e [= <-]. right. reflexivity.
    + destruct (get_description_raise self a e' Ha Hd) as [-> Hno].
      split; [split; discriminate|]. split.
      * split; [|reflexivity]. intros _. exists a. split; [reflexivity|].
        left. exact Hno.
      * intros e [= <-]. right. reflexivity.
  - unfold get_title, the_alert. rewrite Ha. cbn.
    split; [split; reflexivity|]. split.
    + split; [discriminate|]. intros (a & Ha' & _). discriminate Ha'.
    + intros e [= <-]. left. reflexivity.
Qed.

Lemma hikaru_finding_ok_iff (self : Hikaru.Event) :
  (exists f, Hikaru.create_default_finding self = Ok f) <->
  Hikaru.subject_ok self
  /\ exists a, Hikaru.alert self = Some a /\ description_ok a /\ severity_ok a.
Proof.
  rewrite hikaru_finding_unfold, <- hikaru_subject_ok_iff.
  change (Hikaru.alert self) with (alert (Hikaru.alert_part self)).
  rewrite <- create_default_finding_ok_iff.
  destruct (Hikaru.__get_alert_subject self) as [s|e].
  - destruct (create_default_finding (Hikaru.alert_part self)) as [f|e].
    + split; eauto.
    + split; [intros [f Hf]; discriminate Hf|intros [_ [f Hf]]; discriminate Hf].
  - split; [intros [f Hf]; discriminate Hf|intros [[s Hs] _]; discriminate Hs].
Qed.

(** C8 (amended): on every event that carries its alert the title is
    returned; the description is returned exactly when the "description"
    annotation is absent, false in an [if], or a string; the severity exactly
    when the "severity" label is absent or hashable; the subject exactly when
    the first reference present in the order pod, job, deployment, daemonset,
    node has its metadata, or none is present; and the finding is built
    exactly when the event has its alert and all three hold, so in
    particular whenever the two entries are strings or absent and the
    references have their metadata. With no annotation, no label and no
    reference the defaults are the empty title, the empty description, INFO
    and the subject NONE. *)
Theorem C8_total_on_strings :
  (forall self a, alert self = Some a -> exists t, get_title self = Ok t) /\
  (forall self a, alert self = Some a ->
     ((exists d, get_description self = Ok d) <-> description_ok a)) /\
  (forall self a, alert self = Some a ->
     ((exists sev, get_severity self = Ok sev) <-> severity_ok a)) /\
  (forall self : Hikaru.Event,
     (exists s, Hikaru.__get_alert_subject self = Ok s) <-> Hikaru.subject_ok self) /\
  (forall self : Hikaru.Event,
     (exists f, Hikaru.create_default_finding self = Ok f) <->
     Hikaru.subject_ok self
     /\ exists a, Hikaru.alert self = Some a /\ description_ok a /\ severity_ok a) /\
  (forall (self : Hikaru.Event) a, Hikaru.alert self = Some a ->
     Hikaru.subject_ok self ->
     str_or_absent (PrometheusAlert.annotations a !! "description") ->
     str_or_absent (PrometheusAlert.labels a !! "severity") ->
     exists f, Hikaru.create_default_finding self = Ok f) /\
  Hikaru.create_default_finding
    {| Hikaru.alert := Some (sample_alert ∅ ∅); Hikaru.alert_name := None;
       Hikaru.alert_severity := None; Hikaru.node := None; Hikaru.pod := None;
       Hikaru.deployment := None; Hikaru.job := None; Hikaru.daemonset := None |}
  = Ok (Finding.Build (VStr "") "" PROMETHEUS None INFO
          (FindingSubject.Build None TYPE_NONE None)).
Proof.
  split; [exact get_title_total|].
  split; [exact get_description_ok_iff|].
  split; [exact get_severity_ok_iff|].
  split; [exact hikaru_subject_ok_iff|].
  split; [exact hikaru_finding_ok_iff|].
  split; [|reflexivity].
  intros self a Ha Hsub Hd Hs. apply hikaru_finding_ok_iff.
  split; [exact Hsub|]. exists a. split; [exact Ha|]. split.
  - apply str_or_absent_description, Hd.
  - apply str_or_absent_severity, Hs.
Qed.

(** X8: [create_default_finding] raises AttributeError exactly when the
    event has no alert or its first present reference has no metadata, and
    TypeError exactly when neither is the case and the "description"
    annotation is a true value that is no string or the "severity" label is
    unhashable; it raises nothing else, so the subscripts
    [annotations["summary"]] and [annotations["description"]] never raise
    KeyError. *)
Theorem X8_finding_exceptions (self : Hikaru.Event) :
  (Hikaru.create_default_finding self = Raise AttributeError <->
     ~ Hikaru.subject_ok self \/ Hikaru.alert self = None) /\
  (Hikaru.create_default_finding self = Raise TypeError <->
     Hikaru.subject_ok self
     /\ exists a, Hikaru.alert self = Some a
                  /\ (~ description_ok a \/ ~ severity_ok a)) /\
  (forall e, Hikaru.create_default_finding self = Raise e ->
     e = AttributeError \/ e = TypeError).
Proof.
  rewrite hikaru_finding_unfold.
  destruct (create_default_finding_raise (Hikaru.alert_part self)) as (Hattr & Htype & Hany).
  change (alert (Hikaru.alert_part self)) with (Hikaru.alert self) in Hattr, Htype.
  destruct (hikaru_subject_cases self) as [[Hok [s ->]]|[Hno ->]].
  - destruct (create_default_finding (Hikaru.alert_part self)) as [f|e] eqn:Hf.
    + split; [split; [discriminate|]|].
      { intros [Hn|Hn]; [contradiction|]. apply Hattr in Hn. discriminate Hn. }
      split; [|discriminate]. split; [discriminate|].
      intros [_ Hn]. apply Htype in Hn. discriminate Hn.
    + split; [split|].
      * intros [= ->]. right. apply Hattr. reflexivity.
      * intros [Hn|Hn]; [contradiction|]. apply Hattr in Hn. congruence.
      * split; [split|].
        -- intros [= ->]. split; [exact Hok|]. apply Htype. reflexivity.
        -- intros [_ Hn]. apply Htype in Hn. congruence.
        -- intros e' [= <-]. apply Hany. reflexivity.
  - split; [split; [auto|reflexivity]|].
    split; [split; [discriminate|intros [Hok _]; contradiction]|].
    intros e [= <-]. auto.
Qed.

End HikaruFacts.

Section HikaruEndToEnd.

Context `{Validators} `{Builtins}.

(** X15: an alert decoded from a payload whose labels and annotations are
    dictionaries of strings gives a finding for every event that carries it
    and whose first present reference has its metadata (or that has no
    reference): its severity is the table's value for the payload's
    "severity" label (INFO without one), its description the stripped
    "description" annotation of the payload (empty without one), and its
    aggregation key the alert name of the event. If the first present
    reference has no metadata, AttributeError is raised instead. *)
Theorem X15_decoded_alert_gives_finding
    (d labels annotations : gmap string PyVal) (a : PrometheusAlert.t)
    (self : Hikaru.Event) :
  parse_PrometheusAlert d = Ok a ->
  d !! "labels" = Some (VDict labels) ->
  d !! "annotations" = Some (VDict annotations) ->
  all_strings labels -> all_strings annotations ->
  Hikaru.alert self = Some a ->
  (Hikaru.subject_ok self ->
     exists f, Hikaru.create_default_finding self = Ok f
       /\ Finding.severity f = severityOf (as_str (labels !! "severity"))
       /\ Finding.description f
          = match as_str (annotations !! "description") with
            | Some s => strip_labels s
            | None => ""
            end
       /\ Finding.aggregation_key f = Hikaru.alert_name self)
  /\ (~ Hikaru.subject_ok self ->
        Hikaru.create_default_finding self = Raise AttributeError).
Proof.
  intros Hp Hl Han Hsl Hsa Ha.
  apply parse_PrometheusAlert_Ok, PrometheusAlert_fields_inv in Hp
    as (_ & _ & _ & _ & _ & Hlab & Hann).
  rewrite (required_dict _ _ _ Hl) in Hlab. injection Hlab as Hlab.
  rewrite (required_dict _ _ _ Han) in Hann. injection Hann as Hann.
  split.
  - intros Hsub.
    assert (Ha' : alert (Hikaru.alert_part self) = Some a) by exact Ha.
    destruct (proj2 (create_default_finding_ok_iff (Hikaru.alert_part self)))
      as [f Hf].
    { exists a. split; [exact Ha'|]. split.
      - apply str_or_absent_description. rewrite <- Hann.
        apply all_strings_str_or_absent, Hsa.
      - apply str_or_absent_severity. rewrite <- Hlab.
        apply all_strings_str_or_absent, Hsl. }
    apply hikaru_subject_ok_iff in Hsub as [s Hs].
    rewrite hikaru_finding_unfold, Hs, Hf. eexists. split; [reflexivity|]. cbn.
    destruct (create_default_finding_parts _ f Hf) as (_ & Hd & Hsev & _).
    split; [|split; [|reflexivity]].
    + rewrite (get_severity_eq _ a Ha'), <- Hlab in Hsev. unfold dict_get in Hsev.
      destruct (all_strings_str_or_absent labels "severity" Hsl) as [Hk|[x Hk]];
        rewrite Hk in Hsev |- *.
      * cbn in Hsev |- *. congruence.
      * change (default VNone (Some (VStr x))) with (VStr x) in Hsev.
        rewrite severity_get_str in Hsev. cbn [as_str]. congruence.
    + destruct (all_strings_str_or_absent annotations "description" Hsa)
        as [Hk|[x Hk]]; rewrite Hk; cbn.
      * rewrite (get_description_absent _ a Ha') in Hd by (rewrite <- Hann; exact Hk).
        congruence.
      * rewrite (get_description_str _ a x Ha') in Hd by (rewrite <- Hann; exact Hk).
        congruence.
  - intros Hno. rewrite hikaru_finding_unfold.
    apply hikaru_subject_raise_iff in Hno. rewrite Hno. reflexivity.
Qed.

End HikaruEndToEnd.

(** C8, as the spec states it, fails: a description that is a number reaches
    [re.sub] and raises, a severity that is a list cannot be hashed, a pod
    without metadata has no name to read, and no finding is built for any of
    them. *)
Lemma C8_counterexample :
  get_description (sample_event numeric_description_alert None None) = Raise TypeError
  /\ get_severity (sample_event list_severity_alert None None) = Raise TypeError
  /\ Hikaru.__get_alert_subject (hikaru_event highcpu_alert (Some bare_object) None)
     = Raise AttributeError
  /\ ~ (exists (B : Builtins) f,
          @create_default_finding B (sample_event numeric_description_alert None None)
          = Ok f)
  /\ ~ (exists (B : Builtins) f,
          @Hikaru.create_default_finding B
            (hikaru_event highcpu_alert (Some bare_object) None) = Ok f).
Proof.
  split; [reflexivity|]. split; [reflexivity|]. split; [reflexivity|]. split.
  - intros (B & f & Hf). vm_compute in Hf. discriminate Hf.
  - intros (B & f & Hf). vm_compute in Hf. discriminate Hf.
Qed.

Lemma C8_witness :
  forall_builtins (fun B =>
    exists f, @Hikaru.create_default_finding B
                (hikaru_event crashed_alert
                   (Some (Hikaru.with_metadata (resource "p1" (Some "ns1")))) None)
              = Ok f).
Proof.
  intros B.
  apply (proj1 (proj2 (proj2 (proj2 (proj2 (proj2 (@C8_total_on_strings B))))))
           (hikaru_event crashed_alert
              (Some (Hikaru.with_metadata (resource "p1" (Some "ns1")))) None)
           crashed_alert eq_refl).
  - intros r [= <-]. eexists. reflexivity.
  - right. eexists. reflexivity.
  - left. reflexivity.
Defined.

Lemma X8_witness :
  forall_builtins (fun B =>
    @Hikaru.create_default_finding B
       (hikaru_event numeric_description_alert None None) = Raise TypeError
    /\ @Hikaru.create_default_finding B
         (hikaru_event highcpu_alert (Some bare_object) None) = Raise AttributeError).
Proof.
  intros B. split.
  - apply (proj1 (proj2 (@X8_finding_exceptions B _))).
    split; [intros r Hr; discriminate Hr|].
    exists numeric_description_alert. split; [reflexivity|]. left.
    intros [Hf|[s Hs]]; [discriminate Hf|discriminate Hs].
  - apply (proj1 (@X8_finding_exceptions B _)). left. intros Hok.
    destruct (Hok bare_object eq_refl) as [m Hm]. discriminate Hm.
Defined.

Lemma X15_witness :
  forall_builtins (fun B =>
    exists a f,
      @parse_PrometheusAlert example_validators firing_alert_payload = Ok a
      /\ @Hikaru.create_default_finding B
           (hikaru_event a (Some (Hikaru.with_metadata (resource "p1" (Some "ns1"))))
              (Some bare_object)) = Ok f
      /\ Finding.severity f = HIGH
      /\ Finding.description f = "CPU above 90% "
      /\ Finding.aggregation_key f = Some "HighCPU").
Proof.
  intros B.
  destruct (proj1 (@X15_decoded_alert_gives_finding example_validators B
              firing_alert_payload firing_labels firing_annotations _
              (hikaru_event _ (Some (Hikaru.with_metadata (resource "p1" (Some "ns1"))))
                 (Some bare_object))
              firing_alert_parsed eq_refl eq_refl
              all_strings_firing_labels all_strings_firing_annotations eq_refl))
    as (f & Hf & Hsev & Hdesc & Hkey).
  { intros r [= <-]. eexists. reflexivity. }
  eexists _, f. split; [exact firing_alert_parsed|].
  split; [exact Hf|]. split; [exact Hsev|]. split; [exact Hdesc|exact Hkey].
Defined.
